(** * FileCopyManager: the asynchronous file-operation coordinator

    A shallow embedding of [src/helper/FileCopyManager.cpp].

    The manager lives on one control thread.  Its member functions are
    modelled as computations over the manager's fields and the disk, and
    every observable effect (an emitted signal, a started worker thread,
    a [qDebug] line, a mutating Qt filesystem call) is written to a trace
    in program order.  Qt itself is an interface ([QtPlatform]); a small
    concrete filesystem ([Toy]) instantiates it for closed examples. *)

From Stdlib Require Import ZArith List String Ascii Bool Lia.
Import ListNotations.

Open Scope string_scope.
Open Scope list_scope.
Open Scope Z_scope.

(** ** Fixed-width integers

    [qint64] and [int] are two's-complement integers.  They are carried as
    [Z]; an operation that can leave the range is followed by the
    wrap-around of its width. *)

Module Int.

Definition wrap (width x : Z) : Z :=
  (x + 2 ^ (width - 1)) mod 2 ^ width - 2 ^ (width - 1).

Definition in_range (width x : Z) : Prop :=
  - 2 ^ (width - 1) <= x < 2 ^ (width - 1).

(** [qint64] arithmetic result. *)
Definition to_qint64 (x : Z) : Z := wrap 64 x.

(** [static_cast<int>] of a [qint64]. *)
Definition to_int (x : Z) : Z := wrap 32 x.

Definition qint64_max : Z := 2 ^ 63 - 1.

End Int.

(** ** Text

    A [QString] is a sequence of UTF-16 code units, and [size], [at] and
    [left] count in these units.  The model carries text as its UTF-8
    bytes, so the three are defined through the characters the bytes
    spell: a character of one to three bytes is one unit, a character of
    four bytes is a surrogate pair, two units.  A half of a pair that
    [left] cuts off is written as that surrogate's own three bytes. *)

Module QString.

(** The number of bytes of the character a byte opens. *)
Definition width (lead : ascii) : nat :=
  let b := N_of_ascii lead in
  if (b <? 192)%N then 1%nat
  else if (b <? 224)%N then 2%nat
  else if (b <? 240)%N then 3%nat
  else 4%nat.

(** The characters of a text, each with its bytes; [cur] is the character
    being read and [more] the bytes it still lacks. *)
Fixpoint chars_from (s : string) (more : nat) (cur : string) : list string :=
  match s with
  | EmptyString => [cur]
  | String c r =>
      match more with
      | O => cur :: chars_from r (width c - 1) (String c EmptyString)
      | S k => chars_from r k (cur ++ String c EmptyString)%string
      end
  end.

Definition chars (s : string) : list string :=
  match s with
  | EmptyString => []
  | String c r => chars_from r (width c - 1) (String c EmptyString)
  end.

(** A code unit: a whole character, or one half of a surrogate pair. *)
Inductive unit16 : Type :=
| Whole (utf8 : string)
| High (utf8 : string)
| Low (utf8 : string).

Definition units_of (ch : string) : list unit16 :=
  if (String.length ch =? 4)%nat then [High ch; Low ch] else [Whole ch].

Definition units (s : string) : list unit16 := flat_map units_of (chars s).

(** [QString::size()] *)
Definition size (s : string) : nat := List.length (units s).

(** [QString::at(i)] *)
Definition at_ (i : nat) (s : string) : option unit16 := nth_error (units s) i.

(** [QChar == char]: the unit is that Latin-1 character. *)
Definition is_char (u : option unit16) (c : ascii) : bool :=
  match u with
  | Some (Whole (String b EmptyString)) => Ascii.eqb b c
  | _ => false
  end.

(** The code point of a character of four bytes, and its surrogates. *)
Definition code_point4 (ch : string) : N :=
  match ch with
  | String b0 (String b1 (String b2 (String b3 _))) =>
      ((N_of_ascii b0 mod 8) * 262144 + (N_of_ascii b1 mod 64) * 4096 +
       (N_of_ascii b2 mod 64) * 64 + N_of_ascii b3 mod 64)%N
  | _ => 0%N
  end.

Definition high_surrogate (ch : string) : N :=
  (55296 + (code_point4 ch - 65536) / 1024)%N.

Definition low_surrogate (ch : string) : N :=
  (56320 + (code_point4 ch - 65536) mod 1024)%N.

(** The three bytes of a unit that stands alone. *)
Definition bytes_of_unit (u : N) : string :=
  String (ascii_of_N (224 + u / 4096))
    (String (ascii_of_N (128 + (u / 64) mod 64))
       (String (ascii_of_N (128 + u mod 64)) EmptyString)).

(** The text a sequence of units spells. *)
Fixpoint text (us : list unit16) : string :=
  match us with
  | [] => EmptyString
  | Whole ch :: r => (ch ++ text r)%string
  | High ch :: r =>
      match r with
      | Low _ :: r' => (ch ++ text r')%string
      | _ => (bytes_of_unit (high_surrogate ch) ++ text r)%string
      end
  | Low ch :: r => (bytes_of_unit (low_surrogate ch) ++ text r)%string
  end.

(** [QString::left(n)] *)
Definition left (n : nat) (s : string) : string := text (firstn n (units s)).

(** A text that is one character of one unit. *)
Definition one_unit (c : string) : bool :=
  match c with
  | EmptyString => false
  | String lead tail =>
      (String.length tail =? width lead - 1)%nat && (width lead <? 4)%nat
  end.

End QString.

(** ** Signals, worker jobs and the trace *)

(** The signals of [FileCopyManager], with their arguments. *)
Inductive signal : Type :=
| isCopyingChanged
| statusChanged
| progressChanged
| totalSizeChanged
| copySucceeded
| copyFailed (message : string)
| deleteSucceeded (filePath : string)
| deleteFailed (message : string)
| validationProgress (label : string) (value : Z)
| validationSucceeded (imageName tarFilePath : string)
| validationFailed (message : string)
| imageInfoExtracted (success : bool) (imageName androidVersion errorMessage : string)
| imageInfoAndValidationCompleted
    (success : bool) (message imageName androidVersion tarFilePath : string).

(** What the lambda connected to [QThread::started] calls on the fresh
    [FileCopyWorker]. *)
Inductive job : Type :=
| doCopy (source destination : string)
| doDelete (filePath : string)
| doValidateImage (imagePath : string)
| doExtractImageInfo (imagePath : string)
| doExtractAndValidateImage (imagePath : string).

(** The Qt calls of this file that change the disk. *)
Inductive fs_call : Type :=
| Mkpath (dir dirPath : string)
| RemoveFile (filePath : string)
| RemoveRecursively (dir : string)
| Rmdir (dir dirName : string).

(** What is streamed into a [qDebug()] line. *)
Inductive debug_item : Type :=
| Str (s : string)
| Num (n : Z).

Inductive event : Type :=
| Emit (s : signal)
| ThreadStart (j : job)
| Debug (line : list debug_item)
| Fs (call : fs_call) (ok : bool).

Definition trace : Type := list event.

Definition signal_of (e : event) : option signal :=
  match e with Emit s => Some s | _ => None end.

Definition job_of (e : event) : option job :=
  match e with ThreadStart j => Some j | _ => None end.

Definition fs_of (e : event) : option (fs_call * bool) :=
  match e with Fs c ok => Some (c, ok) | _ => None end.

Fixpoint pick {A B : Type} (f : A -> option B) (l : list A) : list B :=
  match l with
  | [] => []
  | x :: r => match f x with
              | Some y => y :: pick f r
              | None => pick f r
              end
  end.

(** The signals raised, the workers dispatched and the filesystem calls
    made along a trace, each in order. *)
Definition signals (t : trace) : list signal := pick signal_of t.
Definition dispatched (t : trace) : list job := pick job_of t.
Definition fs_calls (t : trace) : list (fs_call * bool) := pick fs_of t.

Definition is_copyFailed (s : signal) : bool :=
  match s with copyFailed _ => true | _ => false end.

Definition is_copy_terminal (s : signal) : bool :=
  match s with copySucceeded | copyFailed _ => true | _ => false end.

Definition is_rmdir (c : fs_call) : bool :=
  match c with Rmdir _ _ => true | _ => false end.

Definition count {A : Type} (p : A -> bool) (l : list A) : nat :=
  List.length (filter p l).

(** ** The Qt platform

    The parts of Qt the manager calls.  [FS] is the state of the disk. *)

Inductive entry_filter : Type :=
| Files                (* QDir::Files *)
| Dirs_NoDotAndDotDot. (* QDir::Dirs | QDir::NoDotAndDotDot *)

(** What a [QStorageInfo] object answers. *)
Record QStorageInfo : Type := {
  si_rootPath : string;
  si_isValid : bool;
  si_isReady : bool;
  si_bytesAvailable : Z
}.

Class QtPlatform (FS : Type) : Type := {
  (** [#ifdef Q_OS_WIN] *)
  Q_OS_WIN : bool;
  (** [QFileInfo(p).dir()], as the path of the directory *)
  QFileInfo_dir : string -> string;
  (** [QFileInfo(p).fileName()] *)
  QFileInfo_fileName : string -> string;
  (** [QFileInfo(p).absoluteFilePath()] *)
  QFileInfo_absoluteFilePath : string -> string;
  (** [QDir(d).absoluteFilePath(name)] *)
  QDir_absoluteFilePath : string -> string -> string;
  (** [QDir::fromNativeSeparators] *)
  QDir_fromNativeSeparators : string -> string;
  (** [QDir::rootPath()] *)
  QDir_rootPath : string;
  (** [QFileInfo(p).exists()] *)
  QFileInfo_exists : string -> FS -> bool;
  (** [QFileInfo(p).size()] *)
  QFileInfo_size : string -> FS -> Z;
  (** [QDir(d).exists()] *)
  QDir_exists : string -> FS -> bool;
  (** [QDir(d).entryList(filters)] *)
  QDir_entryList : entry_filter -> string -> FS -> list string;
  (** [QDir(d).cdUp()]: the directory the object names afterwards
      (unchanged when the call fails) *)
  QDir_cdUp : string -> FS -> string;
  (** [QDir(d).mkpath(p)] *)
  QDir_mkpath : string -> string -> FS -> bool * FS;
  (** [QFile::remove(p)] *)
  QFile_remove : string -> FS -> bool * FS;
  (** [QDir(d).removeRecursively()] *)
  QDir_removeRecursively : string -> FS -> bool * FS;
  (** [QDir(d).rmdir(name)] *)
  QDir_rmdir : string -> string -> FS -> bool * FS;
  (** [QStorageInfo(p)] *)
  QStorageInfo_of : string -> FS -> QStorageInfo
}.

(** How a mutating call acts on the disk. *)
Definition run_fs_call {FS} `{QtPlatform FS} (c : fs_call) (fs : FS) : bool * FS :=
  match c with
  | Mkpath d p => QDir_mkpath d p fs
  | RemoveFile p => QFile_remove p fs
  | RemoveRecursively d => QDir_removeRecursively d fs
  | Rmdir d n => QDir_rmdir d n fs
  end.

(** ** The manager's fields

    The fields are those the member functions read and write, with the
    types their uses give them: the two byte counters are assigned from the
    [qint64] arguments of [onCopyProgress]. *)

Record FileCopyManager : Type := {
  m_isCopying : bool;
  m_status : string;
  m_copiedSize : Z;          (* qint64 *)
  m_totalSize : Z;           (* qint64 *)
  m_tempDirToCleanup : string;
  m_deletingFilePath : string
}.

Definition set_isCopying (b : bool) (m : FileCopyManager) : FileCopyManager :=
  {| m_isCopying := b; m_status := m_status m;
     m_copiedSize := m_copiedSize m; m_totalSize := m_totalSize m;
     m_tempDirToCleanup := m_tempDirToCleanup m;
     m_deletingFilePath := m_deletingFilePath m |}.

Definition set_status (s : string) (m : FileCopyManager) : FileCopyManager :=
  {| m_isCopying := m_isCopying m; m_status := s;
     m_copiedSize := m_copiedSize m; m_totalSize := m_totalSize m;
     m_tempDirToCleanup := m_tempDirToCleanup m;
     m_deletingFilePath := m_deletingFilePath m |}.

Definition set_copiedSize (n : Z) (m : FileCopyManager) : FileCopyManager :=
  {| m_isCopying := m_isCopying m; m_status := m_status m;
     m_copiedSize := n; m_totalSize := m_totalSize m;
     m_tempDirToCleanup := m_tempDirToCleanup m;
     m_deletingFilePath := m_deletingFilePath m |}.

Definition set_totalSize (n : Z) (m : FileCopyManager) : FileCopyManager :=
  {| m_isCopying := m_isCopying m; m_status := m_status m;
     m_copiedSize := m_copiedSize m; m_totalSize := n;
     m_tempDirToCleanup := m_tempDirToCleanup m;
     m_deletingFilePath := m_deletingFilePath m |}.

Definition set_tempDirToCleanup (s : string) (m : FileCopyManager) : FileCopyManager :=
  {| m_isCopying := m_isCopying m; m_status := m_status m;
     m_copiedSize := m_copiedSize m; m_totalSize := m_totalSize m;
     m_tempDirToCleanup := s;
     m_deletingFilePath := m_deletingFilePath m |}.

Definition set_deletingFilePath (s : string) (m : FileCopyManager) : FileCopyManager :=
  {| m_isCopying := m_isCopying m; m_status := m_status m;
     m_copiedSize := m_copiedSize m; m_totalSize := m_totalSize m;
     m_tempDirToCleanup := m_tempDirToCleanup m;
     m_deletingFilePath := s |}.

(** The fields that belong to the copy in flight. *)
Definition copy_state (m : FileCopyManager) : bool * Z * Z * string :=
  (m_isCopying m, m_copiedSize m, m_totalSize m, m_tempDirToCleanup m).

(** [progressPercent]: a [const] member, it reads two fields only. *)
Definition progressPercent (m : FileCopyManager) : Z :=
  if m_totalSize m <=? 0 then 0
  else Int.to_int (Z.quot (Int.to_qint64 (m_copiedSize m * 100)) (m_totalSize m)).

(** ** Computations on the control thread

    A member function reads and writes the manager's fields, reads and
    changes the disk, and leaves a trace. *)

Section Manager.

Context {FS : Type} `{QtPlatform FS}.

Record world : Type := { mgr : FileCopyManager; disk : FS }.

Definition M (A : Type) : Type := world -> A * world * trace.

Definition ret {A} (a : A) : M A := fun w => (a, w, []).

Definition bind {A B} (c : M A) (k : A -> M B) : M B :=
  fun w =>
    let '(a, w1, t1) := c w in
    let '(b, w2, t2) := k a w1 in
    (b, w2, t1 ++ t2).

Notation "x <- c ;; k" := (bind c (fun x => k))
  (at level 61, c at next level, right associativity).
Notation "c ;; k" := (bind c (fun _ => k))
  (at level 61, right associativity).

Definition get {A} (field : FileCopyManager -> A) : M A :=
  fun w => (field (mgr w), w, []).

Definition assign (upd : FileCopyManager -> FileCopyManager) : M unit :=
  fun w => (tt, {| mgr := upd (mgr w); disk := disk w |}, []).

Definition emit (s : signal) : M unit := fun w => (tt, w, [Emit s]).

Definition qDebug_line (line : list debug_item) : M unit :=
  fun w => (tt, w, [Debug line]).

Definition qDebug (text subject : string) : M unit :=
  qDebug_line [Str text; Str subject].

Definition thread_start (j : job) : M unit :=
  fun w => (tt, w, [ThreadStart j]).

(** A read-only Qt query of the disk. *)
Definition query {A} (q : FS -> A) : M A := fun w => (q (disk w), w, []).

(** A mutating Qt call: it changes the disk, answers whether it
    succeeded, and is traced with its answer. *)
Definition call (c : fs_call) : M bool :=
  fun w =>
    let '(ok, fs) := run_fs_call c (disk w) in
    (ok, {| mgr := mgr w; disk := fs |}, [Fs c ok]).

(** [for (const QString &x : l) body(x)] *)
Fixpoint for_each {A} (l : list A) (body : A -> M unit) : M unit :=
  match l with
  | [] => ret tt
  | x :: r => body x ;; for_each r body
  end.

Definition when (b : bool) (c : M unit) : M unit :=
  if b then c else ret tt.

(** *** [cleanupTempDirectory] *)

Definition cleanupTempDirectory (tempDir : string) : M unit :=
  dir_exists <- query (QDir_exists tempDir) ;;
  if negb dir_exists then
    qDebug "Temporary directory does not exist:" tempDir
  else
    files <- query (QDir_entryList Files tempDir) ;;
    for_each files (fun file =>
      let filePath := QDir_absoluteFilePath tempDir file in
      removed <- call (RemoveFile filePath) ;;
      when (negb removed) (qDebug "Failed to remove file:" filePath)) ;;
    dirs <- query (QDir_entryList Dirs_NoDotAndDotDot tempDir) ;;
    for_each dirs (fun subDir =>
      let subDirPath := QDir_absoluteFilePath tempDir subDir in
      removed <- call (RemoveRecursively subDirPath) ;;
      when (negb removed) (qDebug "Failed to remove subdirectory:" subDirPath)) ;;
    removed <- call (RemoveRecursively tempDir) ;;
    if negb removed then
      qDebug "Failed to remove temporary directory:" tempDir ;;
      parentDir <- query (QDir_cdUp tempDir) ;;
      let dirName := QFileInfo_fileName tempDir in
      forced <- call (Rmdir parentDir dirName) ;;
      if negb forced then
        qDebug "Force removal also failed for:" tempDir
      else
        qDebug "Force removal succeeded for:" tempDir
    else
      qDebug "Successfully cleaned up temporary directory:" tempDir.

(** *** [startCopy] *)

Definition startCopy (source destination tempDirToCleanup : string) : M bool :=
  copying <- get m_isCopying ;;
  if copying then
    assign (set_status "Already copying...") ;;
    emit statusChanged ;;
    ret false
  else
    let destDir := QFileInfo_dir destination in
    dest_exists <- query (QDir_exists destDir) ;;
    created <- (if negb dest_exists then call (Mkpath destDir ".") else ret true) ;;
    if negb created then
      assign (set_status "Failed to create destination directory.") ;;
      emit statusChanged ;;
      status <- get m_status ;;
      emit (copyFailed status) ;;
      ret false
    else
      assign (set_tempDirToCleanup tempDirToCleanup) ;;
      assign (set_isCopying true) ;;
      assign (set_status "Starting copy...") ;;
      assign (set_copiedSize 0) ;;
      assign (set_totalSize 0) ;;
      emit isCopyingChanged ;;
      emit statusChanged ;;
      emit progressChanged ;;
      emit totalSizeChanged ;;
      thread_start (doCopy source destination) ;;
      ret true.

(** *** [startDelete], [onDeleteFinished] *)

Definition startDelete (filePath : string) : M bool :=
  assign (set_deletingFilePath filePath) ;;
  assign (set_status "Starting delete...") ;;
  emit statusChanged ;;
  thread_start (doDelete filePath) ;;
  ret true.

Definition onDeleteFinished (success : bool) (message : string) : M unit :=
  assign (set_status message) ;;
  emit statusChanged ;;
  if success then
    path <- get m_deletingFilePath ;;
    emit (deleteSucceeded path)
  else
    emit (deleteFailed message).

(** *** [onCopyProgress], [onCopyFinished] *)

Definition onCopyProgress (copiedSize totalSize : Z) : M unit :=
  total <- get m_totalSize ;;
  when (negb (total =? totalSize))
    (assign (set_totalSize totalSize) ;; emit totalSizeChanged) ;;
  assign (set_copiedSize copiedSize) ;;
  emit progressChanged.

Definition onCopyFinished (success : bool) (message : string) : M unit :=
  assign (set_isCopying false) ;;
  assign (set_status message) ;;
  emit isCopyingChanged ;;
  emit statusChanged ;;
  tempDir <- get m_tempDirToCleanup ;;
  when (negb (tempDir =? ""))%string
    (qDebug "Cleaning up temporary directory after copy completion:" tempDir ;;
     cleanupTempDirectory tempDir ;;
     assign (set_tempDirToCleanup "")) ;;
  if success then emit copySucceeded else emit (copyFailed message).

(** *** [getFileSize] *)

Definition getFileSize (filePath : string) : M Z :=
  file_exists <- query (QFileInfo_exists filePath) ;;
  if negb file_exists then ret (-1)
  else query (QFileInfo_size filePath).

(** *** [getAvailableSpace]

    The two branches of [#ifdef Q_OS_WIN] are both kept; the platform
    says which one was compiled. *)

(** [p.size() >= 2 && p.at(1) == ':'] *)
Definition has_drive_letter (p : string) : bool :=
  (2 <=? QString.size p)%nat && QString.is_char (QString.at_ 1 p) ":".

(** [p.left(2) + "/"] *)
Definition drive_root (p : string) : string :=
  (QString.left 2 p ++ "/")%string.

Definition queryRoot (path : string) : M string :=
  if Q_OS_WIN then
    let p := QDir_fromNativeSeparators path in
    if has_drive_letter p then ret (drive_root p)
    else
      let abs := QDir_fromNativeSeparators (QFileInfo_absoluteFilePath p) in
      if has_drive_letter abs then ret (drive_root abs)
      else ret QDir_rootPath
  else
    info <- query (QStorageInfo_of
                     (if (path =? "")%string then QDir_rootPath else path)) ;;
    let rootPath := si_rootPath info in
    if (rootPath =? "")%string then ret QDir_rootPath else ret rootPath.

Definition getAvailableSpace (path : string) : M Z :=
  rootPath <- queryRoot path ;;
  storageInfo <- query (QStorageInfo_of rootPath) ;;
  if negb (si_isValid storageInfo) || negb (si_isReady storageInfo) then
    qDebug "磁盘路径(查询根)无效:" rootPath ;;
    ret 0
  else
    let availableSize := si_bytesAvailable storageInfo in
    qDebug "磁盘路径(查询根):" rootPath ;;
    (* the line also streams the size in GB, a double, left out here *)
    qDebug_line [Str "可用空间:"; Num availableSize; Str "bytes ("; Str "GB)"] ;;
    ret availableSize.

(** *** Image validation and image info *)

Definition startImageValidation (imagePath : string) : M bool :=
  assign (set_status "Starting image validation...") ;;
  emit statusChanged ;;
  emit (validationProgress "开始校验" 0) ;;
  thread_start (doValidateImage imagePath) ;;
  ret true.

Definition onValidationFinished
    (success : bool) (message imageName tarFilePath : string) : M unit :=
  assign (set_status message) ;;
  emit statusChanged ;;
  if success then emit (validationSucceeded imageName tarFilePath)
  else emit (validationFailed message).

Definition startImageInfoExtraction (imagePath : string) : M bool :=
  copying <- get m_isCopying ;;
  if copying then
    assign (set_status "Already processing...") ;;
    emit statusChanged ;;
    ret false
  else
    assign (set_status "Extracting image info...") ;;
    emit statusChanged ;;
    thread_start (doExtractImageInfo imagePath) ;;
    ret true.

Definition onImageInfoExtracted
    (success : bool) (imageName androidVersion errorMessage : string) : M unit :=
  assign (set_status (if success then "Image info extracted successfully"
                      else "Failed to extract image info")) ;;
  emit statusChanged ;;
  emit (imageInfoExtracted success imageName androidVersion errorMessage).

Definition startImageInfoAndValidation (imagePath : string) : M bool :=
  copying <- get m_isCopying ;;
  if copying then
    assign (set_status "Already processing...") ;;
    emit statusChanged ;;
    ret false
  else
    assign (set_status "Processing image info and validation...") ;;
    emit statusChanged ;;
    emit (validationProgress "开始处理" 0) ;;
    thread_start (doExtractAndValidateImage imagePath) ;;
    ret true.

Definition onImageInfoAndValidationCompleted
    (success : bool) (message imageName androidVersion tarFilePath : string)
  : M unit :=
  assign (set_status (if success then "Image processing completed successfully"
                      else "Failed to process image")) ;;
  emit statusChanged ;;
  emit (imageInfoAndValidationCompleted
          success message imageName androidVersion tarFilePath).

(** *** What reaches the manager on the control thread

    The caller's requests and the workers' queued signals arrive one at a
    time; each runs one member function to its end. *)

Inductive slot_call : Type :=
| StartCopy (source destination tempDirToCleanup : string)
| StartDelete (filePath : string)
| StartImageValidation (imagePath : string)
| StartImageInfoExtraction (imagePath : string)
| StartImageInfoAndValidation (imagePath : string)
| GetFileSize (filePath : string)
| GetAvailableSpace (path : string)
| CleanupTempDirectory (tempDir : string)
| CopyProgress (copiedSize totalSize : Z)
| CopyFinished (success : bool) (message : string)
| DeleteFinished (success : bool) (message : string)
| ValidationFinished (success : bool) (message imageName tarFilePath : string)
| ImageInfoExtracted (success : bool) (imageName androidVersion errorMessage : string)
| ImageInfoAndValidationCompleted
    (success : bool) (message imageName androidVersion tarFilePath : string).

Definition ignore {A} (c : M A) : M unit := _ <- c ;; ret tt.

Definition invoke (s : slot_call) : M unit :=
  match s with
  | StartCopy source destination tempDir =>
      ignore (startCopy source destination tempDir)
  | StartDelete filePath => ignore (startDelete filePath)
  | StartImageValidation imagePath => ignore (startImageValidation imagePath)
  | StartImageInfoExtraction imagePath => ignore (startImageInfoExtraction imagePath)
  | StartImageInfoAndValidation imagePath =>
      ignore (startImageInfoAndValidation imagePath)
  | GetFileSize filePath => ignore (getFileSize filePath)
  | GetAvailableSpace path => ignore (getAvailableSpace path)
  | CleanupTempDirectory tempDir => cleanupTempDirectory tempDir
  | CopyProgress copiedSize totalSize => onCopyProgress copiedSize totalSize
  | CopyFinished success message => onCopyFinished success message
  | DeleteFinished success message => onDeleteFinished success message
  | ValidationFinished success message imageName tarFilePath =>
      onValidationFinished success message imageName tarFilePath
  | ImageInfoExtracted success imageName androidVersion errorMessage =>
      onImageInfoExtracted success imageName androidVersion errorMessage
  | ImageInfoAndValidationCompleted success message imageName androidVersion tarFilePath =>
      onImageInfoAndValidationCompleted
        success message imageName androidVersion tarFilePath
  end.

Definition is_CopyFinished (s : slot_call) : bool :=
  match s with CopyFinished _ _ => true | _ => false end.

End Manager.

Arguments world : clear implicits.
Arguments M : clear implicits.

(** ** The cleanup, step by step

    A second description of [cleanupTempDirectory], written after the five
    steps of the specification's section 4.2 instead of after the code: it
    runs the removals on the disk one after the other and lists each with
    its outcome.  It is compared with the code further down. *)

Section CleanupSteps.

Context {FS : Type} `{QtPlatform FS}.

(** Try every call of a list in turn, whatever the outcome of the ones
    before. *)
Fixpoint attempt_all (cs : list fs_call) (fs : FS) : list (fs_call * bool) * FS :=
  match cs with
  | [] => ([], fs)
  | c :: rest =>
      let '(ok, fs1) := run_fs_call c fs in
      let '(done, fs2) := attempt_all rest fs1 in
      ((c, ok) :: done, fs2)
  end.

Definition files_in (dir : string) (fs : FS) : list fs_call :=
  map (fun name => RemoveFile (QDir_absoluteFilePath dir name))
      (QDir_entryList Files dir fs).

Definition subdirs_in (dir : string) (fs : FS) : list fs_call :=
  map (fun name => RemoveRecursively (QDir_absoluteFilePath dir name))
      (QDir_entryList Dirs_NoDotAndDotDot dir fs).

Definition fallback (dir : string) (fs : FS) : fs_call :=
  Rmdir (QDir_cdUp dir fs) (QFileInfo_fileName dir).

Definition cleanup_steps (dir : string) (fs : FS) : list (fs_call * bool) * FS :=
  (* 1 *)
  if negb (QDir_exists dir fs) then ([], fs)
  else
    (* 2 *)
    let '(done2, fs2) := attempt_all (files_in dir fs) fs in
    (* 3 *)
    let '(done3, fs3) := attempt_all (subdirs_in dir fs2) fs2 in
    (* 4 *)
    let '(removed, fs4) := run_fs_call (RemoveRecursively dir) fs3 in
    if removed then
      (done2 ++ done3 ++ [(RemoveRecursively dir, true)], fs4)
    else
      (* 5 *)
      let '(forced, fs5) := run_fs_call (fallback dir fs4) fs4 in
      (done2 ++ done3 ++ [(RemoveRecursively dir, false); (fallback dir fs4, forced)],
       fs5).

End CleanupSteps.

(** The three parts of what a call leaves behind. *)
Definition result_of {FS A} (r : A * world FS * trace) : A := fst (fst r).
Definition state_after {FS A} (r : A * world FS * trace) : world FS := snd (fst r).
Definition trace_of {FS A} (r : A * world FS * trace) : trace := snd r.

(** ** Two predicates used below *)

Section Predicates.

Context {FS : Type} `{QtPlatform FS}.

(** A computation is quiet when it leaves the manager's fields alone,
    raises no signal and starts no thread. *)
Definition quiet {A} (c : M FS A) : Prop :=
  forall w,
    mgr (state_after (c w)) = mgr w /\
    signals (trace_of (c w)) = [] /\
    dispatched (trace_of (c w)) = [].

(** What Qt documents for [QStorageInfo::bytesAvailable]: -1 for an
    object that is not valid, a size otherwise. *)
Definition bytesAvailable_is_a_size : Prop :=
  forall p (fs : FS),
    si_isValid (QStorageInfo_of p fs) = true ->
    si_isReady (QStorageInfo_of p fs) = true ->
    0 <= si_bytesAvailable (QStorageInfo_of p fs).

End Predicates.

(** ** A small concrete disk

    Paths are slash-separated strings.  The disk lists its directories and
    its files (all of them empty) by full path; a pinned path resists every
    call that would create or remove it (an open handle, a permission).
    Volumes are given by their mount point and their free bytes. *)

Module Toy.

Record fs : Type := {
  dirs : list string;
  files : list string;
  pinned : list string;
  volumes : list (string * N)
}.

Definition mem (p : string) (l : list string) : bool :=
  existsb (String.eqb p) l.

Definition without (p : string) (l : list string) : list string :=
  filter (fun q => negb (String.eqb p q)) l.

Fixpoint has_slash (s : string) : bool :=
  match s with
  | EmptyString => false
  | String c r => Ascii.eqb c "/"%char || has_slash r
  end.

(** The text after the last slash. *)
Fixpoint fileName (s : string) : string :=
  match s with
  | EmptyString => EmptyString
  | String c r =>
      if has_slash r then fileName r
      else if Ascii.eqb c "/"%char then r else s
  end.

(** The text before the last slash: the containing directory. *)
Definition dirName (s : string) : string :=
  let n := (String.length s - String.length (fileName s))%nat in
  match n with
  | O => "."
  | S O => "/"
  | S k => String.substring 0 k s
  end.

Definition child (d name : string) : string :=
  if String.eqb d "/" then ("/" ++ name)%string
  else (d ++ "/" ++ name)%string.

(** [p] is [d] or lies below [d]. *)
Definition under (d p : string) : bool :=
  String.eqb d p || String.prefix (child d "") p.

(** A name that starts with a dot is hidden. *)
Definition hidden (name : string) : bool := String.prefix "." name.

(** The listing, as Qt gives it when [QDir::Hidden] is not among the
    filters: hidden entries are left out. *)
Definition entryList (f : entry_filter) (d : string) (s : fs) : list string :=
  let among := match f with Files => files s | Dirs_NoDotAndDotDot => dirs s end in
  filter (fun name => negb (hidden name))
         (map fileName (filter (fun p => String.eqb (dirName p) d) among)).

Definition cdUp (d : string) (s : fs) : string :=
  if mem (dirName d) (dirs s) then dirName d else d.

Definition mkpath (d p : string) (s : fs) : bool * fs :=
  let target := if String.eqb p "." then d else child d p in
  if mem target (dirs s) then (true, s)
  else if mem target (pinned s) then (false, s)
  else (true, {| dirs := target :: dirs s; files := files s;
                 pinned := pinned s; volumes := volumes s |}).

Definition remove (p : string) (s : fs) : bool * fs :=
  if mem p (files s) && negb (mem p (pinned s)) then
    (true, {| dirs := dirs s; files := without p (files s);
              pinned := pinned s; volumes := volumes s |})
  else (false, s).

(** Everything below [d] that is not pinned goes; the call succeeds when
    nothing below [d] was pinned (a missing [d] counts as removed). *)
Definition removeRecursively (d : string) (s : fs) : bool * fs :=
  let held := existsb (under d) (pinned s) in
  let gone p := under d p && negb (mem p (pinned s)) in
  (negb held,
   {| dirs := if held then dirs s else filter (fun p => negb (gone p)) (dirs s);
      files := filter (fun p => negb (gone p)) (files s);
      pinned := pinned s; volumes := volumes s |}).

Definition rmdir (d name : string) (s : fs) : bool * fs :=
  let target := child d name in
  let empty := negb (existsb (fun p => String.eqb (dirName p) target)
                             (dirs s ++ files s)) in
  if mem target (dirs s) && negb (mem target (pinned s)) && empty then
    (true, {| dirs := without target (dirs s); files := files s;
              pinned := pinned s; volumes := volumes s |})
  else (false, s).

(** The first volume whose mount point contains an existing [p]. *)
Definition storageInfo (p : string) (s : fs) : QStorageInfo :=
  let unknown := {| si_rootPath := ""; si_isValid := false;
                    si_isReady := false; si_bytesAvailable := -1 |} in
  if mem p (dirs s) || mem p (files s) then
    match find (fun v => under (fst v) p) (volumes s) with
    | Some (root, free) =>
        {| si_rootPath := root; si_isValid := true;
           si_isReady := true; si_bytesAvailable := Z.of_N free |}
    | None => unknown
    end
  else unknown.

(** Forward slashes for backslashes. *)
Fixpoint fromNativeSeparators (s : string) : string :=
  match s with
  | EmptyString => EmptyString
  | String c r =>
      String (if Ascii.eqb c "\"%char then "/"%char else c) (fromNativeSeparators r)
  end.

Definition platform (windows : bool) : QtPlatform fs := {|
  Q_OS_WIN := windows;
  QFileInfo_dir := dirName;
  QFileInfo_fileName := fileName;
  QFileInfo_absoluteFilePath := fun p => p;
  QDir_absoluteFilePath := child;
  QDir_fromNativeSeparators := fromNativeSeparators;
  QDir_rootPath := "/";
  QFileInfo_exists := fun p s => mem p (dirs s) || mem p (files s);
  QFileInfo_size := fun _ _ => 0;
  QDir_exists := fun d s => mem d (dirs s);
  QDir_entryList := entryList;
  QDir_cdUp := cdUp;
  QDir_mkpath := mkpath;
  QFile_remove := remove;
  QDir_removeRecursively := removeRecursively;
  QDir_rmdir := rmdir;
  QStorageInfo_of := storageInfo
|}.

Definition unix : QtPlatform fs := platform false.
Definition windows : QtPlatform fs := platform true.

(** A staging directory with two files and a nested directory, next to a
    destination tree in which [/dst/ro] cannot be created. *)
Definition sample : fs := {|
  dirs := ["/"; "/tmp"; "/tmp/stage1"; "/tmp/stage1/sub"; "/dst"];
  files := ["/tmp/stage1/a.img"; "/tmp/stage1/b.img"; "/tmp/stage1/sub/c.bin";
            "/src/a.img"];
  pinned := ["/dst/ro"];
  volumes := [("/tmp", 4096%N); ("/", 1000000%N)]
|}.

(** The same, with one staged file held open. *)
Definition sample_held : fs := {|
  dirs := dirs sample; files := files sample;
  pinned := "/tmp/stage1/b.img" :: pinned sample;
  volumes := volumes sample
|}.

(** A staging directory with a hidden file, held open, and a hidden
    subdirectory beside a visible file. *)
Definition sample_hidden : fs := {|
  dirs := ["/"; "/tmp"; "/tmp/stage2"; "/tmp/stage2/.cache"];
  files := ["/tmp/stage2/visible.img"; "/tmp/stage2/.lock";
            "/tmp/stage2/.cache/c.bin"];
  pinned := ["/tmp/stage2/.lock"];
  volumes := [("/", 1000000%N)]
|}.

Definition idle : FileCopyManager := {|
  m_isCopying := false; m_status := "";
  m_copiedSize := 0; m_totalSize := 0;
  m_tempDirToCleanup := ""; m_deletingFilePath := ""
|}.

Definition copying (tempDir : string) : FileCopyManager := {|
  m_isCopying := true; m_status := "Starting copy...";
  m_copiedSize := 512; m_totalSize := 1024;
  m_tempDirToCleanup := tempDir; m_deletingFilePath := ""
|}.

Definition idle_world : world fs :=
  {| mgr := idle; disk := sample |}.

Definition copying_world : world fs :=
  {| mgr := copying "/tmp/stage1"; disk := sample_held |}.

Definition hidden_world : world fs :=
  {| mgr := idle; disk := sample_hidden |}.

(** The calls that arrive between the start of the copy and its end in the
    scenario of the specification, with a delete and a refused second copy
    thrown in. *)
Definition between : list slot_call :=
  [CopyProgress 0 0; StartDelete "/tmp/stale.img"; CopyProgress 512 1024;
   StartCopy "/src/a.img" "/dst/other.img" "/tmp/elsewhere";
   DeleteFinished false "permission denied"; CopyProgress 1024 1024].

End Toy.

(** ** Vocabulary for the further properties *)

Definition is_StartCopy (s : slot_call) : bool :=
  match s with StartCopy _ _ _ => true | _ => false end.

(** The calls whose code reaches a mutating filesystem call. *)
Definition reaches_disk (s : slot_call) : bool :=
  match s with
  | StartCopy _ _ _ | CopyFinished _ _ | CleanupTempDirectory _ => true
  | _ => false
  end.

(** The worker a request asks for, given the busy flag it meets; requests
    for a copy and results are left out. *)
Definition asked_worker (busy : bool) (s : slot_call) : list job :=
  match s with
  | StartDelete filePath => [doDelete filePath]
  | StartImageValidation imagePath => [doValidateImage imagePath]
  | StartImageInfoExtraction imagePath =>
      if busy then [] else [doExtractImageInfo imagePath]
  | StartImageInfoAndValidation imagePath =>
      if busy then [] else [doExtractAndValidateImage imagePath]
  | _ => []
  end.

(** How often the total changes along a run of progress reports that
    starts from the stored total [t0]. *)
Fixpoint total_changes (t0 : Z) (reports : list (Z * Z)) : nat :=
  match reports with
  | [] => O
  | (_, t) :: rest =>
      ((if (t0 =? t)%Z then 0 else 1) + total_changes t rest)%nat
  end.

Definition is_CopyProgress (s : slot_call) : bool :=
  match s with CopyProgress _ _ => true | _ => false end.

Definition signal_eqb_progressChanged (s : signal) : bool :=
  match s with progressChanged => true | _ => false end.

Definition signal_eqb_totalSizeChanged (s : signal) : bool :=
  match s with totalSizeChanged => true | _ => false end.

Section Runs.

Context {FS : Type} `{QtPlatform FS}.

(** The worker's progress reports, delivered in order. *)
Definition deliver_progress (reports : list (Z * Z)) : M FS unit :=
  for_each reports (fun report => onCopyProgress (fst report) (snd report)).

End Runs.

(** * Properties *)

(** ** Fixed-width arithmetic *)

Lemma wrap_small width x :
  0 < width -> Int.in_range width x -> Int.wrap width x = x.
Proof.
  unfold Int.wrap, Int.in_range. intros Hw Hx.
  assert (Hp : 2 ^ width = 2 * 2 ^ (width - 1)).
  { replace width with (Z.succ (width - 1)) at 1 by lia.
    rewrite Z.pow_succ_r by lia. reflexivity. }
  rewrite Z.mod_small by lia. lia.
Qed.

Lemma to_qint64_small x :
  - 2 ^ 63 <= x <= Int.qint64_max -> Int.to_qint64 x = x.
Proof.
  intros Hx. apply wrap_small; [lia|].
  unfold Int.in_range, Int.qint64_max in *. simpl in *. lia.
Qed.

Lemma to_int_small x :
  - 2 ^ 31 <= x < 2 ^ 31 -> Int.to_int x = x.
Proof.
  intros Hx. apply wrap_small; [lia|].
  unfold Int.in_range. simpl in *. lia.
Qed.

(** ** [progressPercent] *)

Lemma progressPercent_no_total m :
  m_totalSize m <= 0 -> progressPercent m = 0.
Proof.
  intros Ht. unfold progressPercent.
  destruct (Z.leb_spec (m_totalSize m) 0); [reflexivity | lia].
Qed.

(** Inside the worker's contract, and while [copied * 100] fits a
    [qint64], the C++ expression is the floor of the exact ratio. *)
Lemma progressPercent_exact m :
  0 <= m_copiedSize m <= m_totalSize m ->
  0 < m_totalSize m ->
  m_copiedSize m * 100 <= Int.qint64_max ->
  progressPercent m = m_copiedSize m * 100 / m_totalSize m /\
  0 <= m_copiedSize m * 100 / m_totalSize m <= 100.
Proof.
  intros Hc Ht Hfit.
  assert (Hq : 0 <= m_copiedSize m * 100 / m_totalSize m <= 100).
  { split.
    - apply Z.div_pos; lia.
    - apply Z.div_le_upper_bound; lia. }
  split; [|exact Hq].
  unfold progressPercent.
  destruct (Z.leb_spec (m_totalSize m) 0); [lia|].
  rewrite to_qint64_small by (unfold Int.qint64_max in *; lia).
  rewrite Z.quot_div_nonneg by lia.
  apply to_int_small. lia.
Qed.

Section Progress.

Context {FS : Type} `{QtPlatform FS}.

(** The progress handler stores what the worker reports, as it comes. *)
Lemma onCopyProgress_stores copiedSize totalSize (w : world FS) :
  let w' := state_after (onCopyProgress copiedSize totalSize w) in
  m_copiedSize (mgr w') = copiedSize /\
  m_totalSize (mgr w') = totalSize /\
  m_isCopying (mgr w') = m_isCopying (mgr w) /\
  disk w' = disk w.
Proof.
  unfold onCopyProgress, state_after, bind, get, when, assign, emit, ret.
  cbn. destruct (Z.eqb_spec (m_totalSize (mgr w)) totalSize) as [E | E]; cbn.
  - rewrite E. repeat split.
  - repeat split.
Qed.

(** C5 (amended): the percent lies in [0, 100] for the values the
    progress handler stores whenever the total is not positive, or
    [0 <= copied <= total] and [copied * 100] fits a [qint64].  The handler
    itself stores any pair it is given. *)
Theorem progressPercent_in_range copiedSize totalSize (w : world FS) :
  totalSize <= 0 \/
  (0 <= copiedSize <= totalSize /\ copiedSize * 100 <= Int.qint64_max) ->
  let m := mgr (state_after (onCopyProgress copiedSize totalSize w)) in
  m_copiedSize m = copiedSize /\
  m_totalSize m = totalSize /\
  0 <= progressPercent m <= 100.
Proof.
  intros Hin m.
  destruct (onCopyProgress_stores copiedSize totalSize w) as (Hc & Ht & _).
  fold m in Hc, Ht. split; [exact Hc|]. split; [exact Ht|].
  destruct (Z.leb_spec totalSize 0) as [Hle | Hpos].
  - rewrite progressPercent_no_total by lia. lia.
  - destruct Hin as [Hle | [Hb Hfit]]; [lia|].
    assert (Hfit' : m_copiedSize m * 100 <= Int.qint64_max) by (rewrite Hc; exact Hfit).
    destruct (progressPercent_exact m ltac:(lia) ltac:(lia) Hfit') as [E Hq].
    rewrite E. exact Hq.
Qed.

End Progress.

(** C6 (amended): the percent is 0 when the total is not positive; for
    [0 <= copied <= total], [0 < total] and [copied * 100] within the
    [qint64] range it is [floor (copied * 100 / total)], and it does not
    decrease when [copied] grows with the total fixed. *)
Theorem progressPercent_floor_monotone (m : FileCopyManager) :
  (m_totalSize m <= 0 -> progressPercent m = 0) /\
  (0 < m_totalSize m ->
   0 <= m_copiedSize m <= m_totalSize m ->
   m_copiedSize m * 100 <= Int.qint64_max ->
   progressPercent m = m_copiedSize m * 100 / m_totalSize m /\
   forall more,
     m_copiedSize m <= more <= m_totalSize m ->
     more * 100 <= Int.qint64_max ->
     progressPercent m <= progressPercent (set_copiedSize more m)).
Proof.
  split; [apply progressPercent_no_total|].
  intros Ht Hc Hfit.
  destruct (progressPercent_exact m Hc Ht Hfit) as [E _].
  split; [exact E|].
  intros more Hmore Hfit'.
  assert (Hc' : 0 <= m_copiedSize (set_copiedSize more m)
                  <= m_totalSize (set_copiedSize more m)) by (cbn; lia).
  destruct (progressPercent_exact (set_copiedSize more m) Hc' Ht Hfit') as [E' _].
  rewrite E, E'. cbn.
  apply Z.div_le_mono; lia.
Qed.

(** ** Reading traces and sequenced calls *)

Lemma pick_app {A B} (f : A -> option B) (l1 l2 : list A) :
  pick f (l1 ++ l2) = pick f l1 ++ pick f l2.
Proof.
  induction l1 as [| x l1 IH]; cbn; [reflexivity|].
  destruct (f x); cbn; rewrite IH; reflexivity.
Qed.

Lemma signals_app t1 t2 : signals (t1 ++ t2) = signals t1 ++ signals t2.
Proof. apply pick_app. Qed.

Lemma dispatched_app t1 t2 : dispatched (t1 ++ t2) = dispatched t1 ++ dispatched t2.
Proof. apply pick_app. Qed.

Lemma fs_calls_app t1 t2 : fs_calls (t1 ++ t2) = fs_calls t1 ++ fs_calls t2.
Proof. apply pick_app. Qed.

Section Sequencing.

Context {FS : Type} `{QtPlatform FS}.

Lemma result_bind {A B} (c : M FS A) (k : A -> M FS B) w :
  result_of (bind c k w) = result_of (k (result_of (c w)) (state_after (c w))).
Proof.
  unfold bind, result_of, state_after.
  destruct (c w) as [[a w1] t1]; cbn.
  destruct (k a w1) as [[b w2] t2]; reflexivity.
Qed.

Lemma state_bind {A B} (c : M FS A) (k : A -> M FS B) w :
  state_after (bind c k w) = state_after (k (result_of (c w)) (state_after (c w))).
Proof.
  unfold bind, result_of, state_after.
  destruct (c w) as [[a w1] t1]; cbn.
  destruct (k a w1) as [[b w2] t2]; reflexivity.
Qed.

Lemma trace_bind {A B} (c : M FS A) (k : A -> M FS B) w :
  trace_of (bind c k w) =
  trace_of (c w) ++ trace_of (k (result_of (c w)) (state_after (c w))).
Proof.
  unfold bind, result_of, state_after, trace_of.
  destruct (c w) as [[a w1] t1]; cbn.
  destruct (k a w1) as [[b w2] t2]; reflexivity.
Qed.

Lemma quiet_ret {A} (a : A) : quiet (ret a : M FS A).
Proof. intros w. repeat split. Qed.

Lemma quiet_query {A} (q : FS -> A) : quiet (query q).
Proof. intros w. repeat split. Qed.

Lemma quiet_qDebug text subject : quiet (qDebug text subject : M FS unit).
Proof. intros w. repeat split. Qed.

Lemma quiet_call c : quiet (call c).
Proof.
  intros w. unfold call, state_after, trace_of.
  destruct (run_fs_call c (disk w)) as [ok fs]. repeat split.
Qed.

Lemma quiet_bind {A B} (c : M FS A) (k : A -> M FS B) :
  quiet c -> (forall a, quiet (k a)) -> quiet (bind c k).
Proof.
  intros Hc Hk w.
  rewrite state_bind, trace_bind, signals_app, dispatched_app.
  destruct (Hc w) as (Em & Es & Ed).
  destruct (Hk (result_of (c w)) (state_after (c w))) as (Em' & Es' & Ed').
  rewrite Em', Em, Es, Es', Ed, Ed'. repeat split.
Qed.

Lemma quiet_when b (c : M FS unit) : quiet c -> quiet (when b c).
Proof. destruct b; cbn; [trivial | intros _; apply quiet_ret]. Qed.

Lemma quiet_for_each {A} (l : list A) (body : A -> M FS unit) :
  (forall x, quiet (body x)) -> quiet (for_each l body).
Proof.
  intros Hb. induction l as [| x l IH]; cbn.
  - apply quiet_ret.
  - apply quiet_bind; [apply Hb | intros _; exact IH].
Qed.

Lemma quiet_if {A} (b : bool) (c1 c2 : M FS A) :
  quiet c1 -> quiet c2 -> quiet (if b then c1 else c2).
Proof. destruct b; trivial. Qed.

Lemma cleanupTempDirectory_quiet tempDir : quiet (cleanupTempDirectory tempDir).
Proof.
  unfold cleanupTempDirectory.
  repeat first
    [ apply quiet_qDebug | apply quiet_query | apply quiet_call | apply quiet_ret
    | apply quiet_when | apply quiet_for_each | apply quiet_if
    | apply quiet_bind | intro ].
Qed.

End Sequencing.

(** ** [cleanupTempDirectory] against its steps *)

Section Cleanup.

Context {FS : Type} `{QtPlatform FS}.

Lemma call_result c (w : world FS) :
  result_of (call c w) = fst (run_fs_call c (disk w)).
Proof. unfold call, result_of. destruct (run_fs_call c (disk w)); reflexivity. Qed.

Lemma call_state c (w : world FS) :
  state_after (call c w) = {| mgr := mgr w; disk := snd (run_fs_call c (disk w)) |}.
Proof. unfold call, state_after. destruct (run_fs_call c (disk w)); reflexivity. Qed.

Lemma call_trace c (w : world FS) :
  trace_of (call c w) = [Fs c (fst (run_fs_call c (disk w)))].
Proof. unfold call, trace_of. destruct (run_fs_call c (disk w)); reflexivity. Qed.

Lemma query_result {A} (q : FS -> A) (w : world FS) :
  result_of (query q w) = q (disk w).
Proof. reflexivity. Qed.

Lemma query_state {A} (q : FS -> A) (w : world FS) :
  state_after (query q w) = w.
Proof. reflexivity. Qed.

Lemma query_trace {A} (q : FS -> A) (w : world FS) :
  trace_of (query q w) = [].
Proof. reflexivity. Qed.

Lemma qDebug_state text subject (w : world FS) :
  state_after (qDebug text subject w) = w.
Proof. reflexivity. Qed.

Lemma qDebug_calls text subject (w : world FS) :
  fs_calls (trace_of (qDebug text subject w)) = [].
Proof. reflexivity. Qed.

Lemma when_qDebug_state b text subject (w : world FS) :
  state_after (when b (qDebug text subject) w) = w.
Proof. destruct b; reflexivity. Qed.

Lemma when_qDebug_calls b text subject (w : world FS) :
  fs_calls (trace_of (when b (qDebug text subject) w)) = [].
Proof. destruct b; reflexivity. Qed.

(** A loop that tries one call per element and only logs a failure tries
    them all. *)
Lemma for_each_attempts {A} (mk : A -> fs_call) (text : string)
      (subject : A -> string) (l : list A) (w : world FS) :
  let r := for_each l (fun x =>
             bind (call (mk x)) (fun removed =>
               when (negb removed) (qDebug text (subject x)))) w in
  (fs_calls (trace_of r), disk (state_after r)) = attempt_all (map mk l) (disk w).
Proof.
  revert w. induction l as [| x l IH]; intros w; cbn; [reflexivity|].
  repeat first
    [ rewrite state_bind | rewrite trace_bind | rewrite fs_calls_app
    | rewrite when_qDebug_state | rewrite when_qDebug_calls
    | rewrite call_state | rewrite call_trace | rewrite call_result ].
  destruct (run_fs_call (mk x) (disk w)) as [ok fs1]. cbn [fst snd fs_calls pick fs_of app].
  specialize (IH {| mgr := mgr w; disk := fs1 |}). cbn in IH.
  destruct (attempt_all (map mk l) fs1) as [done fs2].
  pose proof (f_equal fst IH) as Ec. pose proof (f_equal snd IH) as Ed.
  cbn [fst snd] in Ec, Ed. rewrite Ec, Ed. reflexivity.
Qed.

Lemma attempt_all_calls (cs : list fs_call) (fs : FS) :
  map fst (fst (attempt_all cs fs)) = cs.
Proof.
  revert fs. induction cs as [| c cs IH]; intros fs; cbn; [reflexivity|].
  destruct (run_fs_call c fs) as [ok fs1].
  specialize (IH fs1). destruct (attempt_all cs fs1) as [done fs2].
  cbn in *. rewrite IH. reflexivity.
Qed.

Lemma count_app {A} (p : A -> bool) (l1 l2 : list A) :
  count p (l1 ++ l2) = (count p l1 + count p l2)%nat.
Proof. unfold count. rewrite filter_app, length_app. reflexivity. Qed.

Lemma count_map_none {A B} (p : B -> bool) (f : A -> B) (l : list A) :
  (forall x, p (f x) = false) -> count p (map f l) = 0%nat.
Proof.
  intros Hp. unfold count. induction l as [| x l IH]; cbn; [reflexivity|].
  rewrite Hp. exact IH.
Qed.

Ltac sequence :=
  repeat first
    [ rewrite state_bind | rewrite trace_bind | rewrite result_bind
    | rewrite fs_calls_app
    | rewrite query_result | rewrite query_state | rewrite query_trace
    | rewrite qDebug_state | rewrite qDebug_calls
    | rewrite call_result | rewrite call_state | rewrite call_trace ];
  cbn beta.

(** The code of [cleanupTempDirectory] makes the calls of the five steps,
    with their outcomes, and leaves the disk they leave. *)
Lemma cleanupTempDirectory_refines tempDir (w : world FS) :
  let r := cleanupTempDirectory tempDir w in
  (fs_calls (trace_of r), disk (state_after r)) = cleanup_steps tempDir (disk w).
Proof.
  unfold cleanupTempDirectory, cleanup_steps.
  cbn zeta. rewrite state_bind, trace_bind, query_result, query_state, query_trace.
  destruct (QDir_exists tempDir (disk w)); cbn [negb app]; [|reflexivity].
  (* the files *)
  rewrite state_bind, trace_bind, query_result, query_state, query_trace.
  cbn [app].
  pose proof (for_each_attempts
                (fun file => RemoveFile (QDir_absoluteFilePath tempDir file))
                "Failed to remove file:" (QDir_absoluteFilePath tempDir)
                (QDir_entryList Files tempDir (disk w)) w) as L1.
  cbn beta zeta in L1. fold (files_in tempDir (disk w)) in L1.
  rewrite state_bind, trace_bind, fs_calls_app.
  match type of L1 with
  | (fs_calls (trace_of ?r), _) = _ => remember r as r1 eqn:E1
  end.
  clear E1.
  destruct (attempt_all (files_in tempDir (disk w)) (disk w)) as [done2 fs2].
  pose proof (f_equal fst L1) as C1. pose proof (f_equal snd L1) as D1.
  cbn [fst snd] in C1, D1. rewrite C1. clear L1 C1.
  remember (state_after r1) as w1 eqn:E1. clear E1 r1. subst fs2.
  (* the subdirectories *)
  rewrite state_bind, trace_bind, query_result, query_state, query_trace.
  cbn [app].
  pose proof (for_each_attempts
                (fun subDir => RemoveRecursively (QDir_absoluteFilePath tempDir subDir))
                "Failed to remove subdirectory:" (QDir_absoluteFilePath tempDir)
                (QDir_entryList Dirs_NoDotAndDotDot tempDir (disk w1)) w1) as L2.
  cbn beta zeta in L2. fold (subdirs_in tempDir (disk w1)) in L2.
  rewrite state_bind, trace_bind, fs_calls_app.
  match type of L2 with
  | (fs_calls (trace_of ?r), _) = _ => remember r as r2 eqn:E2
  end.
  clear E2.
  destruct (attempt_all (subdirs_in tempDir (disk w1)) (disk w1)) as [done3 fs3].
  pose proof (f_equal fst L2) as C2. pose proof (f_equal snd L2) as D2.
  cbn [fst snd] in C2, D2. rewrite C2. clear L2 C2.
  remember (state_after r2) as w2 eqn:E2. clear E2 r2. subst fs3.
  (* the directory itself *)
  rewrite state_bind, trace_bind, call_result, call_state, call_trace, fs_calls_app.
  cbn [run_fs_call].
  destruct (QDir_removeRecursively tempDir (disk w2)) as [removed fs4].
  cbn [fst snd]. destruct removed; cbn [negb].
  - rewrite qDebug_state, qDebug_calls. rewrite app_nil_r. reflexivity.
  - sequence. cbn [disk fallback run_fs_call fst snd].
    destruct (QDir_rmdir (QDir_cdUp tempDir fs4) (QFileInfo_fileName tempDir) fs4)
      as [forced fs5].
    cbn [fst snd]. destruct forced; cbn [negb];
      rewrite qDebug_state, qDebug_calls; reflexivity.
Qed.

Lemma files_in_no_rmdir dir (fs : FS) : count is_rmdir (files_in dir fs) = 0%nat.
Proof. apply count_map_none. reflexivity. Qed.

Lemma subdirs_in_no_rmdir dir (fs : FS) : count is_rmdir (subdirs_in dir fs) = 0%nat.
Proof. apply count_map_none. reflexivity. Qed.

(** The calls of the five steps on an existing directory, in order. *)
Lemma cleanup_steps_calls dir (fs : FS) :
  QDir_exists dir fs = true ->
  let fs2 := snd (attempt_all (files_in dir fs) fs) in
  let fs3 := snd (attempt_all (subdirs_in dir fs2) fs2) in
  let removed := fst (QDir_removeRecursively dir fs3) in
  let fs4 := snd (QDir_removeRecursively dir fs3) in
  map fst (fst (cleanup_steps dir fs)) =
  files_in dir fs ++ subdirs_in dir fs2 ++
  RemoveRecursively dir :: (if removed then [] else [fallback dir fs4]).
Proof.
  intros Hex. unfold cleanup_steps. rewrite Hex. cbn [negb run_fs_call].
  pose proof (attempt_all_calls (files_in dir fs) fs) as C2.
  destruct (attempt_all (files_in dir fs) fs) as [done2 fs2]. cbn [fst snd] in *.
  pose proof (attempt_all_calls (subdirs_in dir fs2) fs2) as C3.
  destruct (attempt_all (subdirs_in dir fs2) fs2) as [done3 fs3]. cbn [fst snd] in *.
  destruct (QDir_removeRecursively dir fs3) as [removed fs4]. cbn [fst snd].
  destruct removed.
  - cbn [fst]. rewrite !map_app, C2, C3. reflexivity.
  - destruct (run_fs_call (fallback dir fs4) fs4) as [forced fs5].
    cbn [fst]. rewrite !map_app, C2, C3. reflexivity.
Qed.

(** C4 (amended): [cleanupTempDirectory] is the five steps, over what
    the directory lists.  On a missing directory it makes no filesystem
    call and leaves the disk as it was.  Otherwise it tries to remove
    every file that [entryList(QDir::Files)] lists, then recursively every
    subdirectory that [entryList(QDir::Dirs | QDir::NoDotAndDotDot)] lists
    after that (entries these listings leave out, hidden ones for
    instance, are not tried on their own), then the directory itself
    recursively, each whatever the outcome of the ones before; the plain [rmdir] of the directory's name
    in its parent is tried once when that last removal failed and not at
    all when it succeeded.  The call always returns, changes no field of
    the manager and raises no signal. *)
Theorem cleanupTempDirectory_steps tempDir (w : world FS) :
  let r := cleanupTempDirectory tempDir w in
  let calls := fs_calls (trace_of r) in
  (calls, disk (state_after r)) = cleanup_steps tempDir (disk w) /\
  mgr (state_after r) = mgr w /\
  signals (trace_of r) = [] /\
  (QDir_exists tempDir (disk w) = false ->
   calls = [] /\ disk (state_after r) = disk w) /\
  (QDir_exists tempDir (disk w) = true ->
   let fs2 := snd (attempt_all (files_in tempDir (disk w)) (disk w)) in
   let fs3 := snd (attempt_all (subdirs_in tempDir fs2) fs2) in
   let removed := fst (QDir_removeRecursively tempDir fs3) in
   let fs4 := snd (QDir_removeRecursively tempDir fs3) in
   map fst calls =
     files_in tempDir (disk w) ++ subdirs_in tempDir fs2 ++
     RemoveRecursively tempDir :: (if removed then [] else [fallback tempDir fs4]) /\
   count is_rmdir (map fst calls) = (if removed then 0 else 1)%nat).
Proof.
  intros r calls.
  pose proof (cleanupTempDirectory_refines tempDir w) as R. cbn zeta in R.
  fold r in R. fold calls in R.
  destruct (cleanupTempDirectory_quiet tempDir w) as (Hm & Hs & _).
  fold r in Hm, Hs.
  split; [exact R|]. split; [exact Hm|]. split; [exact Hs|].
  pose proof (f_equal fst R) as Rc. pose proof (f_equal snd R) as Rd.
  cbn [fst snd] in Rc, Rd.
  split.
  - intros Hex. rewrite Rc, Rd. unfold cleanup_steps. rewrite Hex. split; reflexivity.
  - intros Hex fs2 fs3 removed fs4.
    pose proof (cleanup_steps_calls tempDir (disk w) Hex) as Hc. cbn zeta in Hc.
    fold fs2 fs3 removed fs4 in Hc. rewrite <- Rc in Hc.
    split; [exact Hc|].
    rewrite Hc, !count_app, files_in_no_rmdir, subdirs_in_no_rmdir.
    destruct removed; reflexivity.
Qed.

End Cleanup.

(** ** The coordinator *)

Section Coordinator.

Context {FS : Type} `{QtPlatform FS}.

#[local] Arguments cleanupTempDirectory : simpl never.

Ltac run :=
  unfold bind, ret, get, assign, emit, thread_start, when,
    result_of, state_after, trace_of; cbn.

(** C2: a [startCopy] made while a copy is in flight is refused.  It
    returns false and sets the status to "Already copying..."; the busy
    flag, the byte counters, the temporary-directory handle, the recorded
    delete path and the disk stay as they were; no worker is dispatched
    and no filesystem call is made. *)
Theorem startCopy_refused_while_copying source destination tempDir (w : world FS) :
  m_isCopying (mgr w) = true ->
  let r := startCopy source destination tempDir w in
  let m' := mgr (state_after r) in
  result_of r = false /\
  m_status m' = "Already copying..." /\
  m_isCopying m' = true /\
  m_copiedSize m' = m_copiedSize (mgr w) /\
  m_totalSize m' = m_totalSize (mgr w) /\
  m_tempDirToCleanup m' = m_tempDirToCleanup (mgr w) /\
  m_deletingFilePath m' = m_deletingFilePath (mgr w) /\
  disk (state_after r) = disk w /\
  dispatched (trace_of r) = [] /\
  fs_calls (trace_of r) = [] /\
  signals (trace_of r) = [statusChanged].
Proof.
  intros Hbusy. unfold startCopy. run. rewrite Hbusy. cbn.
  rewrite Hbusy. repeat split.
Qed.

(** C3: a [startCopy] made while no copy is in flight.  When the
    destination's directory is missing and [mkpath] fails, the status
    becomes "Failed to create destination directory.", [copyFailed] is
    raised once with that text, the call returns false, no worker is
    dispatched and the busy flag stays false.  Otherwise the handle is
    recorded, the busy flag is set, both byte counters are reset to 0, one
    copy worker is dispatched for the source and the destination, and the
    call returns true. *)
Theorem startCopy_when_idle source destination tempDir (w : world FS) :
  m_isCopying (mgr w) = false ->
  let destDir := QFileInfo_dir destination in
  let r := startCopy source destination tempDir w in
  let m' := mgr (state_after r) in
  if negb (QDir_exists destDir (disk w)) &&
     negb (fst (QDir_mkpath destDir "." (disk w)))
  then
    result_of r = false /\
    m_status m' = "Failed to create destination directory." /\
    signals (trace_of r) =
      [statusChanged; copyFailed "Failed to create destination directory."] /\
    count is_copyFailed (signals (trace_of r)) = 1%nat /\
    dispatched (trace_of r) = [] /\
    m_isCopying m' = false /\
    m_tempDirToCleanup m' = m_tempDirToCleanup (mgr w)
  else
    result_of r = true /\
    m_tempDirToCleanup m' = tempDir /\
    m_isCopying m' = true /\
    m_copiedSize m' = 0 /\
    m_totalSize m' = 0 /\
    dispatched (trace_of r) = [doCopy source destination] /\
    count is_copyFailed (signals (trace_of r)) = 0%nat.
Proof.
  intros Hidle. unfold startCopy, query, call. run. rewrite Hidle. cbn.
  destruct (QDir_exists (QFileInfo_dir destination) (disk w)); cbn.
  - repeat split.
  - destruct (QDir_mkpath (QFileInfo_dir destination) "." (disk w)) as [created fs1].
    destruct created; cbn; [repeat split|].
    rewrite Hidle. repeat split.
Qed.

(** C7: [startImageValidation] does not look at the busy flag.  Whatever
    the flag, it returns true and dispatches one validation worker, and the
    initial progress signal (label "开始校验", "start validation", value 0)
    is raised before the worker thread is started. *)
Theorem startImageValidation_always_dispatches imagePath (w : world FS) (busy : bool) :
  let w_busy := {| mgr := set_isCopying busy (mgr w); disk := disk w |} in
  let r := startImageValidation imagePath w_busy in
  result_of r = true /\
  dispatched (trace_of r) = [doValidateImage imagePath] /\
  trace_of r = [Emit statusChanged; Emit (validationProgress "开始校验" 0)] ++
               [ThreadStart (doValidateImage imagePath)] /\
  m_isCopying (mgr (state_after r)) = busy.
Proof. repeat split. Qed.

(** What [onCopyFinished] does in any state.  Whatever [success] is, the
    busy flag is cleared and the status becomes the message.  With an
    empty handle nothing touches the disk.  With a non-empty handle
    [cleanupTempDirectory] runs once on it, after the two state-changed
    signals and before the terminal signal, and the handle is empty
    afterwards whatever the cleanup achieved.  The terminal signal,
    [copySucceeded] or [copyFailed message], is the last event. *)
Lemma onCopyFinished_effect success message (w : world FS) :
  let r := onCopyFinished success message w in
  let m' := mgr (state_after r) in
  let handle := m_tempDirToCleanup (mgr w) in
  let terminal := if success then copySucceeded else copyFailed message in
  let changed := [Emit isCopyingChanged; Emit statusChanged] in
  let w0 := {| mgr := set_status message (set_isCopying false (mgr w));
               disk := disk w |} in
  m_isCopying m' = false /\
  m_status m' = message /\
  m_tempDirToCleanup m' = "" /\
  signals (trace_of r) = [isCopyingChanged; statusChanged; terminal] /\
  dispatched (trace_of r) = [] /\
  if (handle =? "")%string then
    trace_of r = changed ++ [Emit terminal] /\
    disk (state_after r) = disk w
  else
    let c := cleanupTempDirectory handle w0 in
    trace_of r =
      changed ++
      Debug [Str "Cleaning up temporary directory after copy completion:"; Str handle]
      :: trace_of c ++ [Emit terminal] /\
    disk (state_after r) = disk (state_after c) /\
    (fs_calls (trace_of r), disk (state_after r)) = cleanup_steps handle (disk w).
Proof.
  intros r m' handle terminal changed w0.
  assert (Hrun :
    r = (if (handle =? "")%string
         then (tt, w0, changed ++ [Emit terminal])
         else
           let c := cleanupTempDirectory handle w0 in
           (tt, {| mgr := set_tempDirToCleanup "" (mgr (state_after c));
                   disk := disk (state_after c) |},
            changed ++
            Debug [Str "Cleaning up temporary directory after copy completion:";
                   Str handle]
            :: trace_of c ++ [Emit terminal]))).
  { subst r. unfold onCopyFinished, qDebug, qDebug_line. run.
    fold handle. fold w0.
    destruct (handle =? "")%string eqn:Eh; cbn.
    - subst terminal changed. destruct success; reflexivity.
    - destruct (cleanupTempDirectory handle w0) as [[u wc] tc]. cbn.
      subst terminal changed. destruct success; cbn; rewrite <- app_assoc; reflexivity. }
  destruct (handle =? "")%string eqn:Eh.
  - apply String.eqb_eq in Eh. subst m'. rewrite Hrun. cbn.
    fold handle. subst terminal. destruct success; repeat split; exact Eh.
  - cbn zeta in Hrun.
    destruct (cleanupTempDirectory_quiet handle w0) as (Hm & Hs & Hd).
    pose proof (cleanupTempDirectory_refines handle w0) as R. cbn zeta in R.
    set (c := cleanupTempDirectory handle w0) in *.
    assert (Es : state_after r =
                 {| mgr := set_tempDirToCleanup "" (mgr (state_after c));
                    disk := disk (state_after c) |})
      by (rewrite Hrun; reflexivity).
    assert (Et : trace_of r =
                 changed ++
                 Debug [Str "Cleaning up temporary directory after copy completion:";
                        Str handle]
                 :: trace_of c ++ [Emit terminal])
      by (rewrite Hrun; reflexivity).
    subst m'. rewrite Es, Et. cbn [mgr disk]. rewrite Hm.
    assert (Esig : forall t, signals (changed ++ Debug
                     [Str "Cleaning up temporary directory after copy completion:";
                      Str handle] :: t ++ [Emit terminal]) =
                   isCopyingChanged :: statusChanged :: signals t ++ [terminal]).
    { intros t. subst changed. cbn. unfold signals. rewrite pick_app. reflexivity. }
    assert (Edis : forall t, dispatched (changed ++ Debug
                     [Str "Cleaning up temporary directory after copy completion:";
                      Str handle] :: t ++ [Emit terminal]) = dispatched t).
    { intros t. subst changed. cbn. unfold dispatched. rewrite pick_app.
      cbn. apply app_nil_r. }
    assert (Efs : forall t, fs_calls (changed ++ Debug
                     [Str "Cleaning up temporary directory after copy completion:";
                      Str handle] :: t ++ [Emit terminal]) = fs_calls t).
    { intros t. subst changed. cbn. unfold fs_calls. rewrite pick_app.
      cbn. apply app_nil_r. }
    rewrite Esig, Edis, Efs, Hs, Hd.
    repeat split. exact R.
Qed.

(** A [startCopy] that returns true has set the busy flag and recorded
    the handle. *)
Lemma startCopy_started source destination tempDir (w : world FS) :
  m_isCopying (mgr w) = false ->
  result_of (startCopy source destination tempDir w) = true ->
  let m' := mgr (state_after (startCopy source destination tempDir w)) in
  m_isCopying m' = true /\ m_tempDirToCleanup m' = tempDir.
Proof.
  intros Hidle. unfold startCopy, query, call. run. rewrite Hidle. cbn.
  destruct (QDir_exists (QFileInfo_dir destination) (disk w)); cbn.
  - intros _. split; reflexivity.
  - destruct (QDir_mkpath (QFileInfo_dir destination) "." (disk w)) as [created fs1].
    destruct created; cbn; [intros _; split; reflexivity | discriminate].
Qed.

(** While a copy is in flight, nothing but its own terminal result clears
    the busy flag or touches the handle. *)
Lemma in_flight_kept (s : slot_call) (w : world FS) :
  m_isCopying (mgr w) = true ->
  is_CopyFinished s = false ->
  let w' := state_after (invoke s w) in
  m_isCopying (mgr w') = true /\
  m_tempDirToCleanup (mgr w') = m_tempDirToCleanup (mgr w).
Proof.
  intros Hbusy Hs.
  destruct s; try discriminate Hs;
    try solve
      [ unfold invoke, ignore, startCopy, startDelete, startImageValidation,
          startImageInfoExtraction, startImageInfoAndValidation, getFileSize,
          getAvailableSpace, queryRoot, onCopyProgress, onDeleteFinished,
          onValidationFinished, onImageInfoExtracted,
          onImageInfoAndValidationCompleted, qDebug, qDebug_line, query;
        run; rewrite ?Hbusy; cbn;
        repeat match goal with
               | |- context [if ?b then _ else _] => destruct b; cbn
               end;
        rewrite ?Hbusy; split; reflexivity ].
  (* a direct call of the cleanup *)
  cbn [invoke].
  destruct (cleanupTempDirectory_quiet tempDir w) as (Hm & _).
  rewrite Hm. split; [exact Hbusy | reflexivity].
Qed.

Lemma in_flight_kept_all (l : list slot_call) (w : world FS) :
  m_isCopying (mgr w) = true ->
  existsb is_CopyFinished l = false ->
  let w' := state_after (for_each l invoke w) in
  m_isCopying (mgr w') = true /\
  m_tempDirToCleanup (mgr w') = m_tempDirToCleanup (mgr w).
Proof.
  revert w. induction l as [| s l IH]; intros w Hbusy Hl; cbn.
  - split; [exact Hbusy | reflexivity].
  - cbn in Hl. apply orb_false_iff in Hl. destruct Hl as [Hs Hl].
    rewrite state_bind.
    destruct (in_flight_kept s w Hbusy Hs) as [Hb Hh].
    destruct (IH (state_after (invoke s w)) Hb Hl) as [Hb' Hh'].
    split; [exact Hb' | rewrite Hh', Hh; reflexivity].
Qed.

(** C1: the terminal result of a copy.  Take a [startCopy] that was
    accepted with the handle [tempDir], then any calls other than that
    copy's terminal result: the handle and the busy flag are still as
    recorded.  When the terminal result is then consumed, whatever
    [success] is, the busy flag is cleared and the status becomes the
    message; with a non-empty handle [cleanupTempDirectory] runs once on
    it, between the state-changed signals and the terminal signal, and the
    handle is empty afterwards whatever the cleanup achieved; with an empty
    handle the disk is not touched.  [copySucceeded] or [copyFailed
    message] is the last event and the only terminal signal. *)
Theorem copy_result_cleans_then_notifies
    source destination tempDir (between : list slot_call)
    success message (w : world FS) :
  m_isCopying (mgr w) = false ->
  result_of (startCopy source destination tempDir w) = true ->
  existsb is_CopyFinished between = false ->
  let started := state_after (startCopy source destination tempDir w) in
  let w2 := state_after (for_each between invoke started) in
  let r := onCopyFinished success message w2 in
  let m' := mgr (state_after r) in
  let terminal := if success then copySucceeded else copyFailed message in
  let changed := [Emit isCopyingChanged; Emit statusChanged] in
  let w3 := {| mgr := set_status message (set_isCopying false (mgr w2));
               disk := disk w2 |} in
  m_isCopying (mgr w2) = true /\
  m_tempDirToCleanup (mgr w2) = tempDir /\
  m_isCopying m' = false /\
  m_status m' = message /\
  m_tempDirToCleanup m' = "" /\
  signals (trace_of r) = [isCopyingChanged; statusChanged; terminal] /\
  count is_copy_terminal (signals (trace_of r)) = 1%nat /\
  if (tempDir =? "")%string then
    trace_of r = changed ++ [Emit terminal] /\
    disk (state_after r) = disk w2
  else
    let c := cleanupTempDirectory tempDir w3 in
    trace_of r =
      changed ++
      Debug [Str "Cleaning up temporary directory after copy completion:"; Str tempDir]
      :: trace_of c ++ [Emit terminal] /\
    disk (state_after r) = disk (state_after c) /\
    (fs_calls (trace_of r), disk (state_after r)) = cleanup_steps tempDir (disk w2).
Proof.
  intros Hidle Hok Hbetween started w2 r m' terminal changed w3.
  destruct (startCopy_started source destination tempDir w Hidle Hok) as [Hb Hh].
  fold started in Hb, Hh.
  destruct (in_flight_kept_all between started Hb Hbetween) as [Hb2 Hh2].
  fold w2 in Hb2, Hh2. rewrite Hh in Hh2.
  pose proof (onCopyFinished_effect success message w2) as E. cbn zeta in E.
  fold r in E. rewrite Hh2 in E. fold w3 in E.
  destruct E as (E1 & E2 & E3 & E4 & _ & E6).
  split; [exact Hb2|]. split; [exact Hh2|].
  split; [exact E1|]. split; [exact E2|]. split; [exact E3|].
  split; [exact E4|].
  split; [rewrite E4; subst terminal; destruct success; reflexivity|].
  exact E6.
Qed.

(** C8: deletes stand apart from the copy in flight.  [startDelete]
    always returns true and dispatches one delete worker for its path.
    Neither it nor [onDeleteFinished] changes the busy flag, the byte
    counters or the handle, and neither depends on them: run from a state
    in which these four fields were replaced by any other values, they
    return the same, leave the same trace and commute with the
    replacement.  A successful result raises [deleteSucceeded] with the
    recorded path (the one just dispatched, when the result follows the
    dispatch directly); a failed one raises [deleteFailed] with the
    worker's message. *)
Theorem delete_apart_from_copy
    filePath success message (w : world FS)
    (busy : bool) (copied total : Z) (tempDir : string) :
  let replace_copy_state (x : world FS) :=
    {| mgr := set_isCopying busy (set_copiedSize copied
                (set_totalSize total (set_tempDirToCleanup tempDir (mgr x))));
       disk := disk x |} in
  let s := startDelete filePath w in
  let f := onDeleteFinished success message w in
  result_of s = true /\
  dispatched (trace_of s) = [doDelete filePath] /\
  m_deletingFilePath (mgr (state_after s)) = filePath /\
  copy_state (mgr (state_after s)) = copy_state (mgr w) /\
  copy_state (mgr (state_after f)) = copy_state (mgr w) /\
  startDelete filePath (replace_copy_state w) =
    (result_of s, replace_copy_state (state_after s), trace_of s) /\
  onDeleteFinished success message (replace_copy_state w) =
    (result_of f, replace_copy_state (state_after f), trace_of f) /\
  trace_of f =
    [Emit statusChanged;
     Emit (if success then deleteSucceeded (m_deletingFilePath (mgr w))
           else deleteFailed message)] /\
  signals (trace_of (onDeleteFinished true message (state_after s))) =
    [statusChanged; deleteSucceeded filePath].
Proof.
  cbn zeta. unfold startDelete, onDeleteFinished. run.
  destruct success; repeat split.
Qed.

(** C10: the recorded delete path is one field, overwritten by every
    [startDelete].  After [startDelete p1] and [startDelete p2], with both
    workers dispatched, the first successful result that is consumed
    raises [deleteSucceeded p2], and so does the second: the path reported
    is the one dispatched last, [p1] is reported by neither when it
    differs from [p2]. *)
Theorem deleteSucceeded_reports_last_dispatched
    p1 p2 message1 message2 (w : world FS) :
  let s1 := startDelete p1 w in
  let s2 := startDelete p2 (state_after s1) in
  let f1 := onDeleteFinished true message1 (state_after s2) in
  let f2 := onDeleteFinished true message2 (state_after f1) in
  dispatched (trace_of s1 ++ trace_of s2) = [doDelete p1; doDelete p2] /\
  m_deletingFilePath (mgr (state_after s1)) = p1 /\
  m_deletingFilePath (mgr (state_after s2)) = p2 /\
  signals (trace_of f1) = [statusChanged; deleteSucceeded p2] /\
  signals (trace_of f2) = [statusChanged; deleteSucceeded p2] /\
  (p1 <> p2 ->
   ~ In (deleteSucceeded p1) (signals (trace_of f1 ++ trace_of f2))).
Proof.
  cbn zeta. unfold startDelete, onDeleteFinished. run.
  repeat split.
  intros Hne [E | [E | [E | [E | []]]]]; try discriminate E.
  - injection E as E. congruence.
  - injection E as E. congruence.
Qed.

End Coordinator.

(** ** Drive letters in a text *)

Lemma append_empty_r (s : string) : (s ++ "")%string = s.
Proof. induction s as [| c s IH]; cbn; [reflexivity | rewrite IH; reflexivity]. Qed.

Lemma append_assoc3 (s1 s2 s3 : string) :
  ((s1 ++ s2) ++ s3)%string = (s1 ++ s2 ++ s3)%string.
Proof. induction s1 as [| c s1 IH]; cbn; [reflexivity | rewrite IH; reflexivity]. Qed.

Lemma append_length (s1 s2 : string) :
  String.length (s1 ++ s2) = (String.length s1 + String.length s2)%nat.
Proof. induction s1 as [| c s1 IH]; cbn; [reflexivity | rewrite IH; reflexivity]. Qed.

Lemma width_range (lead : ascii) : (1 <= QString.width lead <= 4)%nat.
Proof.
  unfold QString.width. cbv zeta.
  destruct (_ <? 192)%N; [lia|].
  destruct (_ <? 224)%N; [lia|].
  destruct (_ <? 240)%N; lia.
Qed.

(** Reading a character: either the text holds the bytes it lacks, or it
    ends early and the character takes what is left. *)
Lemma chars_from_cases (r : string) (more : nat) (cur : string) :
  (exists tail s,
      r = (tail ++ s)%string /\ String.length tail = more /\
      QString.chars_from r more cur = (cur ++ tail)%string :: QString.chars s) \/
  ((String.length r < more)%nat /\
   QString.chars_from r more cur = [(cur ++ r)%string]).
Proof.
  revert more cur. induction r as [| c r IH]; intros more cur.
  - destruct more as [| k].
    + left. exists EmptyString, EmptyString. cbn. rewrite append_empty_r. auto.
    + right. cbn. rewrite append_empty_r. split; [lia | reflexivity].
  - destruct more as [| k].
    + left. exists EmptyString, (String c r). cbn. rewrite append_empty_r. auto.
    + cbn [QString.chars_from].
      destruct (IH k (cur ++ String c EmptyString)%string)
        as [(tail & s & Hr & Hlen & Hch) | (Hshort & Hch)].
      * left. exists (String c tail), s. rewrite Hch, append_assoc3. cbn.
        rewrite Hr, Hlen. auto.
      * right. rewrite Hch, append_assoc3. cbn. split; [lia | reflexivity].
Qed.

Lemma chars_from_whole (tail : string) (cur s : string) :
  QString.chars_from (tail ++ s) (String.length tail) cur =
  (cur ++ tail)%string :: QString.chars s.
Proof.
  revert cur. induction tail as [| c tail IH]; intros cur.
  - cbn. rewrite append_empty_r. destruct s; reflexivity.
  - cbn. rewrite IH, append_assoc3. reflexivity.
Qed.

Lemma one_unit_length (c : string) :
  QString.one_unit c = true -> (String.length c <> 4)%nat.
Proof.
  destruct c as [| lead tail]; [discriminate|]. unfold QString.one_unit.
  intros Hc. apply andb_true_iff in Hc. destruct Hc as [Hl Hw].
  apply Nat.eqb_eq in Hl. apply Nat.ltb_lt in Hw.
  pose proof (width_range lead). cbn [String.length]. lia.
Qed.

(** A character of one unit at the head of a text is its first unit. *)
Lemma units_one_unit (c s : string) :
  QString.one_unit c = true ->
  QString.units (c ++ s) = QString.Whole c :: QString.units s.
Proof.
  intros Hc. pose proof (one_unit_length c Hc) as Hlen.
  destruct c as [| lead tail]; [discriminate|].
  unfold QString.one_unit in Hc. apply andb_true_iff in Hc. destruct Hc as [Hl _].
  apply Nat.eqb_eq in Hl.
  unfold QString.units. cbn [append QString.chars]. rewrite <- Hl.
  rewrite chars_from_whole. cbn [flat_map append].
  unfold QString.units_of at 1.
  destruct (Nat.eqb_spec (String.length (String lead tail)) 4) as [E | _];
    [contradiction | reflexivity].
Qed.

Lemma colon_one_unit : QString.one_unit ":" = true.
Proof. reflexivity. Qed.

(** A text that reads: one character of one unit, a colon, the rest. *)
Lemma drive_letter_text (c rest : string) :
  QString.one_unit c = true ->
  has_drive_letter (c ++ ":" ++ rest) = true /\
  drive_root (c ++ ":" ++ rest) = (c ++ ":/")%string.
Proof.
  intros Hc. unfold has_drive_letter, drive_root, QString.size, QString.at_, QString.left.
  rewrite (units_one_unit c _ Hc), (units_one_unit ":" rest colon_one_unit).
  split; [reflexivity|].
  cbn [firstn QString.text]. rewrite append_empty_r, append_assoc3. reflexivity.
Qed.

(** Only such a text has a drive letter. *)
Lemma drive_letter_only (p : string) :
  has_drive_letter p = true ->
  exists c rest, QString.one_unit c = true /\ p = (c ++ ":" ++ rest)%string.
Proof.
  unfold has_drive_letter, QString.size, QString.at_.
  intros Hp. apply andb_true_iff in Hp. destruct Hp as [Hsize Hat].
  apply Nat.leb_le in Hsize.
  destruct p as [| lead r]; [cbn in Hsize; lia|].
  unfold QString.units in *. cbn [QString.chars] in *.
  destruct (chars_from_cases r (QString.width lead - 1) (String lead EmptyString))
    as [(tail & s & Hr & Hlen & Hch) | (_ & Hch)].
  2:{ rewrite Hch in *. cbn [flat_map] in *. rewrite app_nil_r in *.
      unfold QString.units_of in *.
      destruct (_ =? 4)%nat; cbn in *; [discriminate | lia]. }
  rewrite Hch in *. cbn [flat_map append] in *.
  unfold QString.units_of at 1 in Hat. unfold QString.units_of at 1 in Hsize.
  destruct (Nat.eqb_spec (String.length (String lead tail)) 4) as [E4 | N4];
    [cbn in Hat; discriminate|].
  cbn [app nth_error] in Hat.
  assert (Hone : QString.one_unit (String lead tail) = true).
  { unfold QString.one_unit. apply andb_true_iff. split.
    - apply Nat.eqb_eq. exact Hlen.
    - apply Nat.ltb_lt. pose proof (width_range lead).
      cbn [String.length] in N4. lia. }
  exists (String lead tail).
  destruct s as [| l2 r2]; [cbn in Hat; discriminate|].
  cbn [QString.chars] in Hat.
  destruct (chars_from_cases r2 (QString.width l2 - 1) (String l2 EmptyString))
    as [(tail2 & s2 & Hr2 & Hlen2 & Hch2) | (_ & Hch2)];
    rewrite Hch2 in Hat; cbn [flat_map append app] in Hat;
    unfold QString.units_of at 1 in Hat;
    match type of Hat with
    | context [if ?b then _ else _] => destruct b
    end; cbn in Hat; try discriminate.
  - destruct tail2; [|discriminate].
    apply Ascii.eqb_eq in Hat. subst l2.
    exists s2. split; [exact Hone|]. rewrite Hr, Hr2. reflexivity.
  - destruct r2; [|discriminate].
    apply Ascii.eqb_eq in Hat. subst l2.
    exists EmptyString. split; [exact Hone|]. rewrite Hr. reflexivity.
Qed.

(** ** [getAvailableSpace] *)

Section Storage.

Context {FS : Type} `{QtPlatform FS}.

Lemma queryRoot_reads path (w : world FS) :
  state_after (queryRoot path w) = w /\
  signals (trace_of (queryRoot path w)) = [].
Proof.
  unfold queryRoot, query, bind, ret, state_after, trace_of.
  repeat match goal with
         | |- context [if ?b then _ else _] => destruct b; cbn
         end; split; reflexivity.
Qed.

(** C9 (amended): what [getAvailableSpace] answers.  The root it
    queries is, with drive letters, the first two characters of the path
    followed by a slash when the second is a colon (so [c:/] for a path
    that reads [c:...], whatever one-unit character [c] is), else the same
    of the path's absolute form, else [QDir::rootPath()]; without drive
    letters it is the root path of the volume that holds the path (the
    system root for the empty path), and [QDir::rootPath()] when that
    volume has no root path, as for a path that cannot be resolved.  The
    answer is 0 when [QStorageInfo] of that root is not valid or not ready
    and otherwise what it reports as available, as reported: it is
    negative only if that report is, and never when Qt reports sizes.
    Nothing is changed and no signal is raised. *)
Theorem getAvailableSpace_answer path (w : world FS) :
  let r := getAvailableSpace path w in
  let root :=
    if Q_OS_WIN then
      let p := QDir_fromNativeSeparators path in
      if has_drive_letter p then drive_root p
      else
        let abs := QDir_fromNativeSeparators (QFileInfo_absoluteFilePath p) in
        if has_drive_letter abs then drive_root abs else QDir_rootPath
    else
      let asked := if (path =? "")%string then QDir_rootPath else path in
      let mount := si_rootPath (QStorageInfo_of asked (disk w)) in
      if (mount =? "")%string then QDir_rootPath else mount in
  let info := QStorageInfo_of root (disk w) in
  result_of (queryRoot path w) = root /\
  result_of r =
    (if si_isValid info && si_isReady info then si_bytesAvailable info else 0) /\
  (result_of r < 0 ->
   si_isValid info = true /\ si_isReady info = true /\ si_bytesAvailable info < 0) /\
  (bytesAvailable_is_a_size -> 0 <= result_of r) /\
  state_after r = w /\
  signals (trace_of r) = [] /\
  (Q_OS_WIN = true ->
   forall c rest,
     QString.one_unit c = true ->
     QDir_fromNativeSeparators path = (c ++ ":" ++ rest)%string ->
     root = (c ++ ":/")%string).
Proof.
  intros r root info.
  destruct (queryRoot_reads path w) as [Hs Ht].
  assert (Hroot : result_of (queryRoot path w) = root).
  { subst root. unfold queryRoot.
    destruct Q_OS_WIN.
    - cbv zeta. destruct (has_drive_letter _); [reflexivity|].
      destruct (has_drive_letter _); reflexivity.
    - rewrite result_bind, query_result, query_state. cbv zeta.
      destruct (path =? "")%string;
        destruct (si_rootPath _ =? "")%string; reflexivity. }
  assert (Hr : result_of r =
               if si_isValid info && si_isReady info
               then si_bytesAvailable info else 0).
  { subst r info. rewrite <- Hroot. unfold getAvailableSpace.
    rewrite result_bind, Hs. rewrite result_bind, query_result, query_state.
    destruct (si_isValid _) eqn:Ev; destruct (si_isReady _) eqn:Ey; reflexivity. }
  split; [exact Hroot|]. split; [exact Hr|].
  split.
  { rewrite Hr. destruct (si_isValid info); destruct (si_isReady info); cbn;
      intros Hneg; first [lia | repeat split; assumption]. }
  split.
  { intros Hqt. rewrite Hr.
    destruct (si_isValid info) eqn:Ev; destruct (si_isReady info) eqn:Ey;
      cbn; try lia. apply Hqt; assumption. }
  split.
  { subst r. unfold getAvailableSpace.
    rewrite state_bind, Hs, state_bind, query_result, query_state.
    destruct (negb _ || negb _); reflexivity. }
  split.
  { subst r. unfold getAvailableSpace.
    rewrite trace_bind, signals_app, Ht, Hs, trace_bind, query_result, query_state.
    destruct (negb _ || negb _); reflexivity. }
  intros Hwin c rest Hc Hp. subst root. rewrite Hwin. cbv zeta. rewrite Hp.
  destruct (drive_letter_text c rest Hc) as [Hd Hroot']. rewrite Hd. exact Hroot'.
Qed.

End Storage.

(** * Further properties *)

(** ** Sizes and percentages *)

Section Queries.

Context {FS : Type} `{QtPlatform FS}.

(** X1: [getFileSize] answers -1 for a path that does not exist and the
    size Qt reports for one that does; since that size is not negative,
    -1 is returned for missing paths only.  The call reads the disk and
    nothing else: no field, no signal, no trace. *)
Theorem getFileSize_sentinel filePath (w : world FS) :
  (QFileInfo_exists filePath (disk w) = true ->
   0 <= QFileInfo_size filePath (disk w)) ->
  let r := getFileSize filePath w in
  (result_of r = -1 <-> QFileInfo_exists filePath (disk w) = false) /\
  (QFileInfo_exists filePath (disk w) = true ->
   result_of r = QFileInfo_size filePath (disk w)) /\
  state_after r = w /\
  trace_of r = [].
Proof.
  intros Hsize. unfold getFileSize, bind, query, ret, result_of, state_after, trace_of.
  cbn. destruct (QFileInfo_exists filePath (disk w)) eqn:E; cbn.
  - specialize (Hsize eq_refl). repeat split; try reflexivity.
    + intros Hr. lia.
    + discriminate.
  - repeat split; try reflexivity. discriminate.
Qed.

End Queries.

(** X2: within the bounds in which the percentage is exact
    ([0 <= copied <= total], [0 < total], [copied * 100] in the [qint64]
    range), [progressPercent] is 100 only when every byte is copied, and 0
    exactly while less than a hundredth is. *)
Theorem progressPercent_full_and_empty (m : FileCopyManager) :
  0 <= m_copiedSize m <= m_totalSize m ->
  0 < m_totalSize m ->
  m_copiedSize m * 100 <= Int.qint64_max ->
  (progressPercent m = 100 <-> m_copiedSize m = m_totalSize m) /\
  (progressPercent m = 0 <-> m_copiedSize m * 100 < m_totalSize m).
Proof.
  intros Hc Ht Hfit.
  destruct (progressPercent_exact m Hc Ht Hfit) as [E _]. rewrite E.
  set (c := m_copiedSize m) in *. set (t := m_totalSize m) in *.
  split; split; intros Hq.
  - assert (Hge : t * 100 <= c * 100).
    { destruct (Z.le_gt_cases (t * 100) (c * 100)) as [Hle | Hlt]; [exact Hle|].
      assert (c * 100 / t < 100) by (apply Z.div_lt_upper_bound; lia). lia. }
    lia.
  - replace (c * 100) with (100 * t) by lia. apply Z.div_mul. lia.
  - destruct (Z.lt_ge_cases (c * 100) t) as [Hlt | Hge]; [exact Hlt|].
    assert (1 <= c * 100 / t) by (apply Z.div_le_lower_bound; lia). lia.
  - apply Z.div_small. lia.
Qed.

(** ** Progress reports *)

Section ProgressRuns.

Context {FS : Type} `{QtPlatform FS}.

Lemma last_nonempty {A} (a : A) (l : list A) (d d' : A) :
  last (a :: l) d = last (a :: l) d'.
Proof.
  revert a. induction l as [| b l IH]; intros a; [reflexivity|].
  change (last (b :: l) d = last (b :: l) d'). apply IH.
Qed.

Lemma onCopyProgress_run copiedSize totalSize (w : world FS) :
  onCopyProgress copiedSize totalSize w =
  (tt,
   {| mgr := set_copiedSize copiedSize
               (if m_totalSize (mgr w) =? totalSize then mgr w
                else set_totalSize totalSize (mgr w));
      disk := disk w |},
   (if m_totalSize (mgr w) =? totalSize then [] else [Emit totalSizeChanged])
   ++ [Emit progressChanged]).
Proof.
  unfold onCopyProgress, bind, get, when, assign, emit, ret. cbn.
  destruct (m_totalSize (mgr w) =? totalSize); reflexivity.
Qed.

(** X3: a run of progress reports.  After the reports are delivered in
    order the manager holds the last pair; [progressChanged] was raised
    once per report and [totalSizeChanged] once per report whose total
    differs from the one stored just before it, so a run that repeats the
    stored total raises none.  Nothing else is raised, no thread is
    started, and the busy flag, the status, the handle, the recorded
    delete path and the disk are as before. *)
Theorem deliver_progress_effect (reports : list (Z * Z)) (w : world FS) :
  let r := deliver_progress reports w in
  let m' := mgr (state_after r) in
  (m_copiedSize m', m_totalSize m') =
    last reports (m_copiedSize (mgr w), m_totalSize (mgr w)) /\
  count signal_eqb_progressChanged (signals (trace_of r)) = List.length reports /\
  count signal_eqb_totalSizeChanged (signals (trace_of r)) =
    total_changes (m_totalSize (mgr w)) reports /\
  List.length (signals (trace_of r)) =
    (List.length reports + total_changes (m_totalSize (mgr w)) reports)%nat /\
  dispatched (trace_of r) = [] /\
  fs_calls (trace_of r) = [] /\
  m_isCopying m' = m_isCopying (mgr w) /\
  m_status m' = m_status (mgr w) /\
  m_tempDirToCleanup m' = m_tempDirToCleanup (mgr w) /\
  m_deletingFilePath m' = m_deletingFilePath (mgr w) /\
  disk (state_after r) = disk w.
Proof.
  unfold deliver_progress. revert w.
  induction reports as [| [c t] rest IH]; intros w.
  - cbn. repeat split.
  - cbn [for_each fst snd]. cbv zeta.
    rewrite state_bind, trace_bind, signals_app, dispatched_app, fs_calls_app.
    rewrite !count_app, length_app.
    rewrite onCopyProgress_run.
    unfold state_after, trace_of in *. cbn [fst snd].
    set (w1 := {| mgr := _; disk := disk w |}).
    specialize (IH w1). cbv zeta in IH.
    destruct IH as (I1 & I2 & I3 & I4 & I5 & I6 & I7 & I8 & I9 & I10 & I11).
    assert (Ht1 : m_totalSize (mgr w1) = t).
    { subst w1. cbn. destruct (Z.eqb_spec (m_totalSize (mgr w)) t); cbn; congruence. }
    assert (Hc1 : m_copiedSize (mgr w1) = c) by reflexivity.
    rewrite I2, I3, I4, I5, I6, I7, I8, I9, I10, I11, Ht1.
    cbn [total_changes].
    split.
    { rewrite I1, Ht1, Hc1. destruct rest as [| p rest]; [reflexivity|].
      cbn [last]. apply last_nonempty. }
    subst w1. cbn [mgr disk].
    destruct (Z.eqb_spec (m_totalSize (mgr w)) t); cbn; repeat split; lia.
Qed.

End ProgressRuns.

(** ** The image requests and the busy flag *)

Section Gating.

Context {FS : Type} `{QtPlatform FS}.

Ltac crunch :=
  unfold bind, ret, get, assign, emit, thread_start, when, ignore,
    result_of, state_after, trace_of; cbn.

(** X4: [startImageInfoExtraction] is gated by the copy's busy flag but
    does not take it.  While a copy is in flight it returns false with the
    status "Already processing..." and starts nothing; otherwise it
    returns true with the status "Extracting image info..." and starts one
    extraction worker.  Either way [statusChanged] is the only signal, and
    the busy flag, the byte counters, the handle, the recorded delete path
    and the disk are left as they were. *)
Theorem startImageInfoExtraction_gated imagePath (w : world FS) :
  let busy := m_isCopying (mgr w) in
  let r := startImageInfoExtraction imagePath w in
  let m' := mgr (state_after r) in
  result_of r = negb busy /\
  dispatched (trace_of r) = (if busy then [] else [doExtractImageInfo imagePath]) /\
  m_status m' = (if busy then "Already processing..." else "Extracting image info...") /\
  signals (trace_of r) = [statusChanged] /\
  fs_calls (trace_of r) = [] /\
  copy_state m' = copy_state (mgr w) /\
  m_deletingFilePath m' = m_deletingFilePath (mgr w) /\
  disk (state_after r) = disk w.
Proof.
  unfold startImageInfoExtraction. crunch.
  destruct (m_isCopying (mgr w)) eqn:E; cbn; unfold copy_state; cbn;
    rewrite ?E; repeat split.
Qed.

(** X5: [startImageInfoAndValidation] is gated the same way.  Refused,
    it raises [statusChanged] alone: no progress signal and no worker.
    Accepted, it raises [statusChanged], then the initial progress signal
    (label "开始处理", value 0), and only then starts the combined worker.
    It never takes the busy flag and never touches the counters, the
    handle, the recorded delete path or the disk. *)
Theorem startImageInfoAndValidation_gated imagePath (w : world FS) :
  let busy := m_isCopying (mgr w) in
  let r := startImageInfoAndValidation imagePath w in
  let m' := mgr (state_after r) in
  result_of r = negb busy /\
  trace_of r =
    (if busy then [Emit statusChanged]
     else [Emit statusChanged; Emit (validationProgress "开始处理" 0);
           ThreadStart (doExtractAndValidateImage imagePath)]) /\
  m_status m' = (if busy then "Already processing..."
                 else "Processing image info and validation...") /\
  copy_state m' = copy_state (mgr w) /\
  m_deletingFilePath m' = m_deletingFilePath (mgr w) /\
  disk (state_after r) = disk w.
Proof.
  unfold startImageInfoAndValidation. crunch.
  destruct (m_isCopying (mgr w)) eqn:E; cbn; unfold copy_state; cbn;
    rewrite ?E; repeat split.
Qed.

(** X6: each of the five start functions returns true exactly when it
    has started a worker thread, and then exactly one, for the job and the
    arguments it was asked for; when it returns false it has started
    none. *)
Theorem start_returns_true_iff_dispatched
    source destination tempDir filePath imagePath (w : world FS) :
  let started {A} (r : A * world FS * trace) := dispatched (trace_of r) in
  (let r := startCopy source destination tempDir w in
   started r = if result_of r then [doCopy source destination] else []) /\
  (let r := startDelete filePath w in
   result_of r = true /\ started r = [doDelete filePath]) /\
  (let r := startImageValidation imagePath w in
   result_of r = true /\ started r = [doValidateImage imagePath]) /\
  (let r := startImageInfoExtraction imagePath w in
   started r = if result_of r then [doExtractImageInfo imagePath] else []) /\
  (let r := startImageInfoAndValidation imagePath w in
   started r = if result_of r then [doExtractAndValidateImage imagePath] else []).
Proof.
  cbv zeta. repeat split.
  - unfold startCopy, query, call. crunch.
    destruct (m_isCopying (mgr w)); cbn; [reflexivity|].
    destruct (QDir_exists (QFileInfo_dir destination) (disk w)); cbn; [reflexivity|].
    destruct (QDir_mkpath (QFileInfo_dir destination) "." (disk w)) as [created fs1].
    destruct created; reflexivity.
  - unfold startImageInfoExtraction. crunch.
    destruct (m_isCopying (mgr w)); reflexivity.
  - unfold startImageInfoAndValidation. crunch.
    destruct (m_isCopying (mgr w)); reflexivity.
Qed.

End Gating.

(** ** What every call keeps *)

Section Protocol.

Context {FS : Type} `{QtPlatform FS}.

#[local] Arguments cleanupTempDirectory : simpl never.

Ltac open_calls :=
  unfold invoke, ignore, startCopy, startDelete, startImageValidation,
    startImageInfoExtraction, startImageInfoAndValidation, getFileSize,
    getAvailableSpace, queryRoot, onCopyProgress, onDeleteFinished,
    onValidationFinished, onImageInfoExtracted,
    onImageInfoAndValidationCompleted, qDebug, qDebug_line, query, call,
    bind, ret, get, assign, emit, thread_start, when,
    result_of, state_after, trace_of;
  cbn.

Ltac split_ifs :=
  repeat match goal with
         | |- context [if ?b then _ else _] => destruct b eqn:?; cbn
         | |- context [let '(_, _) := ?p in _] => destruct p eqn:?; cbn
         end.

(** The fields after the copy's terminal result. *)
Lemma onCopyFinished_fields success message (w : world FS) :
  mgr (state_after (onCopyFinished success message w)) =
  set_tempDirToCleanup "" (set_status message (set_isCopying false (mgr w))).
Proof.
  unfold onCopyFinished.
  repeat first [rewrite state_bind | rewrite result_bind]. cbn beta.
  change (result_of (get m_tempDirToCleanup ?x)) with (m_tempDirToCleanup (mgr x)).
  change (state_after (get m_tempDirToCleanup ?x)) with x.
  set (w0 := state_after (emit statusChanged _)).
  assert (Hw0 : w0 = {| mgr := set_status message (set_isCopying false (mgr w));
                        disk := disk w |}) by reflexivity.
  assert (Hend : forall x : world FS,
             mgr (state_after ((if success then emit copySucceeded
                                else emit (copyFailed message)) x)) = mgr x).
  { intros x. destruct success; reflexivity. }
  rewrite Hend.
  destruct (m_tempDirToCleanup (mgr w0) =? "")%string eqn:Eh; cbn [negb when].
  - apply String.eqb_eq in Eh. rewrite Hw0 in *. cbn in *.
    unfold set_tempDirToCleanup. cbn. rewrite <- Eh. reflexivity.
  - repeat first [rewrite state_bind | rewrite result_bind]. cbn beta.
    change (state_after (assign ?f ?x)) with {| mgr := f (mgr x); disk := disk x |}.
    cbn [mgr].
    destruct (cleanupTempDirectory_quiet (m_tempDirToCleanup (mgr w0))
                (state_after (qDebug
                   "Cleaning up temporary directory after copy completion:"
                   (m_tempDirToCleanup (mgr w0)) w0))) as (Hm & _).
    rewrite Hm. rewrite Hw0. reflexivity.
Qed.

(** What a call other than a copy request, a copy result or a direct
    cleanup does to the manager and the disk. *)
Lemma invoke_plain (s : slot_call) (w : world FS) :
  reaches_disk s = false ->
  let r := invoke s w in
  copy_state (mgr (state_after r)) =
    match s with
    | CopyProgress c t => (m_isCopying (mgr w), c, t, m_tempDirToCleanup (mgr w))
    | _ => copy_state (mgr w)
    end /\
  disk (state_after r) = disk w /\
  fs_calls (trace_of r) = [] /\
  dispatched (trace_of r) = asked_worker (m_isCopying (mgr w)) s.
Proof.
  intros Hs. destruct s; try discriminate Hs; unfold copy_state; open_calls;
    split_ifs; repeat split; cbn;
    repeat match goal with
           | E : negb (_ =? _) = false |- _ =>
               apply negb_false_iff, Z.eqb_eq in E
           end;
    congruence.
Qed.

Lemma startCopy_run source destination tempDir (w : world FS) :
  let destDir := QFileInfo_dir destination in
  let made := QDir_mkpath destDir "." (disk w) in
  let r := startCopy source destination tempDir w in
  if m_isCopying (mgr w) then
    r = (false, {| mgr := set_status "Already copying..." (mgr w); disk := disk w |},
         [Emit statusChanged])
  else if QDir_exists destDir (disk w) || fst made then
    result_of r = true /\
    mgr (state_after r) =
      set_totalSize 0 (set_copiedSize 0 (set_status "Starting copy..."
        (set_isCopying true (set_tempDirToCleanup tempDir (mgr w))))) /\
    disk (state_after r) =
      (if QDir_exists destDir (disk w) then disk w else snd made) /\
    trace_of r =
      (if QDir_exists destDir (disk w) then [] else [Fs (Mkpath destDir ".") true]) ++
      [Emit isCopyingChanged; Emit statusChanged; Emit progressChanged;
       Emit totalSizeChanged; ThreadStart (doCopy source destination)]
  else
    r = (false,
         {| mgr := set_status "Failed to create destination directory." (mgr w);
            disk := snd made |},
         [Fs (Mkpath destDir ".") false; Emit statusChanged;
          Emit (copyFailed "Failed to create destination directory.")]).
Proof.
  cbv zeta. open_calls.
  destruct (m_isCopying (mgr w)); cbn; [reflexivity|].
  destruct (QDir_exists (QFileInfo_dir destination) (disk w)); cbn.
  - repeat split.
  - destruct (QDir_mkpath (QFileInfo_dir destination) "." (disk w)) as [created fs1].
    destruct created; cbn; [repeat split | reflexivity].
Qed.

(** X7: the busy flag and the handle change in two places only.  A
    [startCopy] that returns true sets the flag and records its handle;
    the copy's terminal result clears both.  A [startCopy] that returns
    false and every other call (requests, results, queries, a direct
    cleanup) leave both as they were. *)
Theorem busy_flag_and_handle (s : slot_call) (w : world FS) :
  let m' := mgr (state_after (invoke s w)) in
  (m_isCopying m', m_tempDirToCleanup m') =
  match s with
  | StartCopy source destination tempDir =>
      if result_of (startCopy source destination tempDir w)
      then (true, tempDir)
      else (m_isCopying (mgr w), m_tempDirToCleanup (mgr w))
  | CopyFinished _ _ => (false, "")
  | _ => (m_isCopying (mgr w), m_tempDirToCleanup (mgr w))
  end.
Proof.
  cbv zeta.
  destruct (reaches_disk s) eqn:Hs.
  - destruct s; try discriminate Hs.
    + cbn [invoke]. unfold ignore. rewrite state_bind.
      change (state_after (ret tt ?x)) with x.
      pose proof (startCopy_run source destination tempDirToCleanup w) as R.
      cbv zeta in R.
      destruct (m_isCopying (mgr w)) eqn:Eb.
      * rewrite R. cbn. rewrite Eb. reflexivity.
      * destruct (QDir_exists _ _ || fst _).
        -- destruct R as (R1 & R2 & _). rewrite R1, R2. reflexivity.
        -- rewrite R. cbn. rewrite Eb. reflexivity.
    + cbn [invoke].
      destruct (cleanupTempDirectory_quiet tempDir w) as (Hm & _).
      rewrite Hm. reflexivity.
    + cbn [invoke]. rewrite onCopyFinished_fields. reflexivity.
  - destruct (invoke_plain s w Hs) as (Hc & _).
    unfold copy_state in Hc.
    destruct s; try discriminate Hs; congruence.
Qed.

(** X8: who touches the disk.  [startCopy] makes at most one filesystem
    call, the [mkpath] of the destination's directory, and only when no
    copy is in flight and that directory is missing.  The copy's terminal
    result makes the calls of one cleanup of the recorded handle, or none
    when the handle is empty.  Every other call leaves the disk as it was
    and makes no filesystem call. *)
Theorem who_touches_the_disk (s : slot_call) (w : world FS) :
  let r := invoke s w in
  (fs_calls (trace_of r), disk (state_after r)) =
  match s with
  | StartCopy source destination tempDir =>
      let destDir := QFileInfo_dir destination in
      if m_isCopying (mgr w) || QDir_exists destDir (disk w) then ([], disk w)
      else ([(Mkpath destDir ".", fst (QDir_mkpath destDir "." (disk w)))],
            snd (QDir_mkpath destDir "." (disk w)))
  | CopyFinished _ _ =>
      if (m_tempDirToCleanup (mgr w) =? "")%string then ([], disk w)
      else cleanup_steps (m_tempDirToCleanup (mgr w)) (disk w)
  | CleanupTempDirectory tempDir => cleanup_steps tempDir (disk w)
  | _ => ([], disk w)
  end.
Proof.
  cbv zeta.
  destruct (reaches_disk s) eqn:Hs.
  - destruct s; try discriminate Hs.
    + open_calls.
      destruct (m_isCopying (mgr w)); cbn; [reflexivity|].
      destruct (QDir_exists (QFileInfo_dir destination) (disk w)); cbn; [reflexivity|].
      destruct (QDir_mkpath (QFileInfo_dir destination) "." (disk w)) as [created fs1].
      destruct created; reflexivity.
    + cbn [invoke]. apply cleanupTempDirectory_refines.
    + cbn [invoke].
      pose proof (onCopyFinished_effect success message w) as E. cbv zeta in E.
      destruct E as (_ & _ & _ & _ & _ & E).
      destruct (m_tempDirToCleanup (mgr w) =? "")%string.
      * destruct E as [Et Ed]. rewrite Et, Ed. destruct success; reflexivity.
      * destruct E as (_ & _ & E). exact E.
  - destruct (invoke_plain s w Hs) as (_ & Hd & Hf & _).
    rewrite Hd, Hf. destruct s; try discriminate Hs; reflexivity.
Qed.

(** X9: requests and results compose.  Along any sequence of calls that
    holds no copy request, no copy result and no direct cleanup, the busy
    flag stays what it was at the start, so every delete and validation
    request starts its worker, every extraction or combined request
    starts its worker exactly when the flag was clear at the start, and
    the workers started are these, in order.  The disk is not touched. *)
Theorem requests_compose (calls : list slot_call) (w : world FS) :
  existsb reaches_disk calls = false ->
  let r := for_each calls invoke w in
  dispatched (trace_of r) = flat_map (asked_worker (m_isCopying (mgr w))) calls /\
  m_isCopying (mgr (state_after r)) = m_isCopying (mgr w) /\
  m_tempDirToCleanup (mgr (state_after r)) = m_tempDirToCleanup (mgr w) /\
  fs_calls (trace_of r) = [] /\
  disk (state_after r) = disk w.
Proof.
  revert w. induction calls as [| s calls IH]; intros w Hcalls; cbn.
  - repeat split.
  - cbn in Hcalls. apply orb_false_iff in Hcalls. destruct Hcalls as [Hs Hcalls].
    rewrite state_bind, trace_bind, dispatched_app, fs_calls_app.
    destruct (invoke_plain s w Hs) as (Hc & Hd & Hf & Hj).
    assert (Hflag : m_isCopying (mgr (state_after (invoke s w))) = m_isCopying (mgr w) /\
                    m_tempDirToCleanup (mgr (state_after (invoke s w))) =
                    m_tempDirToCleanup (mgr w)).
    { unfold copy_state in Hc. destruct s; try discriminate Hs; split; congruence. }
    destruct Hflag as [Hb Hh].
    destruct (IH (state_after (invoke s w)) Hcalls) as (I1 & I2 & I3 & I4 & I5).
    rewrite I1, I2, I3, I4, I5, Hb, Hh, Hd, Hf, Hj. repeat split.
Qed.

(** X10: a copy result delivered a second time.  The first delivery has
    emptied the handle, so the second makes no filesystem call and leaves
    the disk alone; it still sets the status and raises the two
    state-changed signals and its terminal signal. *)
Theorem copy_result_delivered_twice
    success1 message1 success2 message2 (w : world FS) :
  let r1 := onCopyFinished success1 message1 w in
  let r2 := onCopyFinished success2 message2 (state_after r1) in
  trace_of r2 =
    [Emit isCopyingChanged; Emit statusChanged;
     Emit (if success2 then copySucceeded else copyFailed message2)] /\
  fs_calls (trace_of r2) = [] /\
  disk (state_after r2) = disk (state_after r1) /\
  m_status (mgr (state_after r2)) = message2.
Proof.
  cbv zeta.
  pose proof (onCopyFinished_effect success2 message2
                (state_after (onCopyFinished success1 message1 w))) as E.
  cbv zeta in E.
  assert (Hh : m_tempDirToCleanup
                 (mgr (state_after (onCopyFinished success1 message1 w))) = "")
    by (rewrite (onCopyFinished_fields success1 message1 w); reflexivity).
  rewrite Hh in E. cbn [String.eqb] in E.
  destruct E as (_ & E2 & _ & _ & _ & Et & Ed).
  rewrite Et, Ed. repeat split; exact E2.
Qed.

(** X11: the percentage across a copy request.  A [startCopy] that
    returns true resets both byte counters, so [progressPercent] reads 0
    whatever the previous copy left; one that returns false (refused or
    failed) leaves the counters and the percentage as they were. *)
Theorem startCopy_resets_progress source destination tempDir (w : world FS) :
  let r := startCopy source destination tempDir w in
  let m' := mgr (state_after r) in
  (m_copiedSize m', m_totalSize m') =
    (if result_of r then (0, 0) else (m_copiedSize (mgr w), m_totalSize (mgr w))) /\
  progressPercent m' = (if result_of r then 0 else progressPercent (mgr w)).
Proof.
  cbv zeta.
  pose proof (startCopy_run source destination tempDir w) as R. cbv zeta in R.
  destruct (m_isCopying (mgr w)).
  - rewrite R. split; reflexivity.
  - destruct (QDir_exists _ _ || fst _).
    + destruct R as (R1 & R2 & _). rewrite R1, R2. split; reflexivity.
    + rewrite R. split; reflexivity.
Qed.

(** X12: the copy's terminal result reopens the gate.  Straight after
    it, whatever the state it was delivered in, an extraction request and
    a combined request are accepted, and a copy request is accepted
    exactly when the destination's directory exists or [mkpath] creates
    it. *)
Theorem gate_reopens_after_copy_result
    success message source destination tempDir imagePath (w : world FS) :
  let w' := state_after (onCopyFinished success message w) in
  let destDir := QFileInfo_dir destination in
  result_of (startImageInfoExtraction imagePath w') = true /\
  result_of (startImageInfoAndValidation imagePath w') = true /\
  result_of (startCopy source destination tempDir w') =
    QDir_exists destDir (disk w') || fst (QDir_mkpath destDir "." (disk w')).
Proof.
  cbv zeta.
  pose proof (onCopyFinished_fields success message w) as F.
  set (w' := state_after (onCopyFinished success message w)) in *.
  assert (Hidle : m_isCopying (mgr w') = false) by (rewrite F; reflexivity).
  split; [|split].
  - unfold startImageInfoExtraction, bind, get, result_of. cbn. rewrite Hidle. reflexivity.
  - unfold startImageInfoAndValidation, bind, get, result_of. cbn. rewrite Hidle. reflexivity.
  - pose proof (startCopy_run source destination tempDir w') as R. cbv zeta in R.
    rewrite Hidle in R.
    destruct (QDir_exists _ _ || fst _).
    + destruct R as (R1 & _). exact R1.
    + rewrite R. reflexivity.
Qed.

(** X13: every change is announced.  Whatever the call, if it leaves
    the status different it has raised [statusChanged], if it leaves the
    busy flag different it has raised [isCopyingChanged], if it leaves the
    copied bytes different it has raised [progressChanged], and if it
    leaves the total different it has raised [totalSizeChanged]. *)
Theorem changes_are_announced (s : slot_call) (w : world FS) :
  let r := invoke s w in
  let m := mgr w in
  let m' := mgr (state_after r) in
  (m_status m' <> m_status m -> In statusChanged (signals (trace_of r))) /\
  (m_isCopying m' <> m_isCopying m -> In isCopyingChanged (signals (trace_of r))) /\
  (m_copiedSize m' <> m_copiedSize m -> In progressChanged (signals (trace_of r))) /\
  (m_totalSize m' <> m_totalSize m -> In totalSizeChanged (signals (trace_of r))).
Proof.
  cbv zeta.
  destruct s;
    try solve
      [ open_calls; split_ifs;
        repeat match goal with
               | E : negb (_ =? _) = false |- _ =>
                   apply negb_false_iff, Z.eqb_eq in E
               end;
        repeat split; intros Hne; cbn;
        solve [ auto 10 | exfalso; apply Hne; cbn; congruence ] ].
  - (* a copy request *)
    cbn [invoke]. unfold ignore. rewrite state_bind, trace_bind, signals_app.
    change (state_after (ret tt ?x)) with x.
    change (signals (trace_of (ret tt ?x))) with (@nil signal).
    rewrite app_nil_r.
    pose proof (startCopy_run source destination tempDirToCleanup w) as R.
    cbv zeta in R.
    destruct (m_isCopying (mgr w)) eqn:Eb.
    + rewrite R. cbn. rewrite Eb.
      repeat split; intros Hne; cbn; auto; exfalso; apply Hne; reflexivity.
    + destruct (QDir_exists _ _ || fst _).
      * destruct R as (_ & R2 & _ & R4). rewrite R2, R4, signals_app.
        repeat split; intros _; apply in_or_app; right; cbn; auto 10.
      * rewrite R. cbn. rewrite Eb.
        repeat split; intros Hne; cbn; auto; exfalso; apply Hne; reflexivity.
  - (* a direct cleanup changes no field *)
    cbn [invoke].
    destruct (cleanupTempDirectory_quiet tempDir w) as (Hm & _).
    rewrite Hm. repeat split; intros Hne; exfalso; apply Hne; reflexivity.
  - (* the copy's terminal result *)
    cbn [invoke].
    pose proof (onCopyFinished_effect success message w) as E. cbv zeta in E.
    destruct E as (_ & _ & _ & Es & _). rewrite Es.
    rewrite (onCopyFinished_fields success message w).
    repeat split; intros Hne; cbn; auto; exfalso; apply Hne; reflexivity.
Qed.

Lemma handle_invariant_step (s : slot_call) (w : world FS) :
  (m_isCopying (mgr w) = false -> m_tempDirToCleanup (mgr w) = "") ->
  let m' := mgr (state_after (invoke s w)) in
  m_isCopying m' = false -> m_tempDirToCleanup m' = "".
Proof.
  intros Hinv. cbv zeta.
  destruct (reaches_disk s) eqn:Hs.
  - destruct s; try discriminate Hs.
    + cbn [invoke]. unfold ignore. rewrite state_bind.
      change (state_after (ret tt ?x)) with x.
      pose proof (startCopy_run source destination tempDirToCleanup w) as R.
      cbv zeta in R.
      destruct (m_isCopying (mgr w)) eqn:Eb.
      * rewrite R. cbn. rewrite Eb. discriminate.
      * destruct (QDir_exists _ _ || fst _).
        -- destruct R as (_ & R2 & _). rewrite R2. cbn. discriminate.
        -- rewrite R. cbn. intros _. apply Hinv. reflexivity.
    + cbn [invoke].
      destruct (cleanupTempDirectory_quiet tempDir w) as (Hm & _).
      rewrite Hm. exact Hinv.
    + cbn [invoke]. rewrite onCopyFinished_fields. reflexivity.
  - destruct (invoke_plain s w Hs) as (Hc & _).
    unfold copy_state in Hc.
    assert (Hsame : m_isCopying (mgr (state_after (invoke s w))) = m_isCopying (mgr w) /\
                    m_tempDirToCleanup (mgr (state_after (invoke s w))) =
                    m_tempDirToCleanup (mgr w))
      by (destruct s; try discriminate Hs; split; congruence).
    destruct Hsame as [Hb Hh]. rewrite Hb, Hh. exact Hinv.
Qed.

(** X14: a handle is held only while a copy is in flight.  If the
    handle is empty whenever the busy flag is clear, this is still so
    after any sequence of calls: an accepted copy request sets both, the
    copy's result clears both, and nothing else touches either.  From a
    fresh idle manager, a handle is never left behind without a copy that
    will still clean it up. *)
Theorem handle_only_while_copying (calls : list slot_call) (w : world FS) :
  (m_isCopying (mgr w) = false -> m_tempDirToCleanup (mgr w) = "") ->
  let m' := mgr (state_after (for_each calls invoke w)) in
  m_isCopying m' = false -> m_tempDirToCleanup m' = "".
Proof.
  revert w. induction calls as [| s calls IH]; intros w Hinv; cbn.
  - exact Hinv.
  - rewrite state_bind. apply IH. apply handle_invariant_step. exact Hinv.
Qed.

(** X15: the image results are relayed as they come.  Each of the three
    handlers raises [statusChanged] and then its own signal with the
    worker's values unchanged, and nothing else; none changes the busy
    flag, the counters, the handle, the recorded delete path or the disk.
    The validation result puts the worker's message in the status; the
    extraction result and the combined result put one of two fixed texts
    there, chosen by [success], and pass the worker's message on in the
    signal only. *)
Theorem image_results_relayed
    success message imageName androidVersion errorMessage tarFilePath
    (w : world FS) :
  let v := onValidationFinished success message imageName tarFilePath w in
  let e := onImageInfoExtracted success imageName androidVersion errorMessage w in
  let c := onImageInfoAndValidationCompleted
             success message imageName androidVersion tarFilePath w in
  let kept {A} (r : A * world FS * trace) :=
    copy_state (mgr (state_after r)) = copy_state (mgr w) /\
    m_deletingFilePath (mgr (state_after r)) = m_deletingFilePath (mgr w) /\
    disk (state_after r) = disk w in
  (trace_of v =
     [Emit statusChanged;
      Emit (if success then validationSucceeded imageName tarFilePath
            else validationFailed message)] /\
   m_status (mgr (state_after v)) = message /\ kept v) /\
  (trace_of e =
     [Emit statusChanged;
      Emit (imageInfoExtracted success imageName androidVersion errorMessage)] /\
   m_status (mgr (state_after e)) =
     (if success then "Image info extracted successfully"
      else "Failed to extract image info") /\ kept e) /\
  (trace_of c =
     [Emit statusChanged;
      Emit (imageInfoAndValidationCompleted
              success message imageName androidVersion tarFilePath)] /\
   m_status (mgr (state_after c)) =
     (if success then "Image processing completed successfully"
      else "Failed to process image") /\ kept c).
Proof.
  cbv zeta. unfold copy_state. open_calls. destruct success; repeat split.
Qed.

End Protocol.

(** ** More on the percentage *)

Section Reach.

Context {FS : Type} `{QtPlatform FS}.

#[local] Arguments cleanupTempDirectory : simpl never.

(** X20: what moves the percentage.  Only a progress report and a copy
    request can change what [progressPercent] reads; every other call,
    the copy's own terminal result included, leaves it where it was, so a
    finished copy keeps showing its last percentage until the next copy
    is accepted. *)
Theorem progressPercent_moves_only_with_copy (s : slot_call) (w : world FS) :
  is_CopyProgress s = false ->
  is_StartCopy s = false ->
  progressPercent (mgr (state_after (invoke s w))) = progressPercent (mgr w).
Proof.
  intros Hp Hc.
  assert (Hsame : m_copiedSize (mgr (state_after (invoke s w))) = m_copiedSize (mgr w) /\
                  m_totalSize (mgr (state_after (invoke s w))) = m_totalSize (mgr w)).
  { destruct (reaches_disk s) eqn:Hs.
    - destruct s; try discriminate Hs; try discriminate Hc; cbn [invoke].
      + destruct (cleanupTempDirectory_quiet tempDir w) as (Hm & _).
        rewrite Hm. split; reflexivity.
      + rewrite onCopyFinished_fields. split; reflexivity.
    - destruct (invoke_plain s w Hs) as (Hk & _). unfold copy_state in Hk.
      destruct s; try discriminate Hs; try discriminate Hp; split; congruence. }
  destruct Hsame as [E1 E2]. unfold progressPercent. rewrite E1, E2. reflexivity.
Qed.

End Reach.

(** ** The root that is queried for free space *)

(** X16: which paths carry a drive letter, and their root.  The test
    [p.size() >= 2 && p.at(1) == ':'] holds exactly of the texts that read
    one character of one code unit, a colon, and anything after.  The
    root computed from such a text is that character followed by [:/],
    whatever the character is; it is again a drive-letter path, and it is
    its own root. *)
Theorem drive_letter_paths (p : string) :
  (has_drive_letter p = true <->
   exists c rest, QString.one_unit c = true /\ p = (c ++ ":" ++ rest)%string) /\
  (forall c rest,
     QString.one_unit c = true ->
     p = (c ++ ":" ++ rest)%string ->
     drive_root p = (c ++ ":/")%string /\
     has_drive_letter (drive_root p) = true /\
     drive_root (drive_root p) = drive_root p).
Proof.
  split.
  - split.
    + apply drive_letter_only.
    + intros (c & rest & Hc & ->). apply (drive_letter_text c rest Hc).
  - intros c rest Hc ->.
    destruct (drive_letter_text c rest Hc) as [_ Hroot].
    destruct (drive_letter_text c "/" Hc) as [Hd' Hroot'].
    rewrite Hroot. repeat split; assumption.
Qed.

Section StorageRoots.

Context {FS : Type} `{QtPlatform FS}.

(** X17: with drive letters, only the drive matters.  On a platform
    compiled with [Q_OS_WIN], two paths that both carry a drive letter and
    agree on their first two code units, [left(2)] (after the separators
    are made forward slashes), get the same answer, the same log lines
    included, whatever follows the drive. *)
Theorem getAvailableSpace_same_drive path1 path2 (w : world FS) :
  Q_OS_WIN = true ->
  has_drive_letter (QDir_fromNativeSeparators path1) = true ->
  has_drive_letter (QDir_fromNativeSeparators path2) = true ->
  QString.left 2 (QDir_fromNativeSeparators path1) =
  QString.left 2 (QDir_fromNativeSeparators path2) ->
  getAvailableSpace path1 w = getAvailableSpace path2 w.
Proof.
  intros Hwin H1 H2 Hsame.
  unfold getAvailableSpace, queryRoot. rewrite Hwin, H1, H2.
  unfold drive_root. rewrite Hsame. reflexivity.
Qed.

(** X18: without drive letters, the empty path stands for the system
    root.  On a platform compiled without [Q_OS_WIN], asking for the
    free space of the empty path gives what asking for [QDir::rootPath()]
    gives, the log lines included. *)
Theorem getAvailableSpace_empty_path (w : world FS) :
  Q_OS_WIN = false ->
  getAvailableSpace "" w = getAvailableSpace QDir_rootPath w.
Proof.
  intros Hwin. unfold getAvailableSpace, queryRoot. rewrite Hwin.
  cbn [String.eqb].
  destruct (QDir_rootPath =? "")%string eqn:E; [|reflexivity].
  apply String.eqb_eq in E. rewrite E. reflexivity.
Qed.

End StorageRoots.

(** * Closed examples on the small disk *)

Module Examples.

(** C1 at work: the scenario ends with the staging directory removed,
    the handle cleared and [copySucceeded] raised last. *)
Lemma copy_result_example :
  let started := state_after (startCopy (H := Toy.unix)
                   "/src/a.img" "/dst/new/b.img" "/tmp/stage1" Toy.idle_world) in
  let w2 := state_after (for_each Toy.between (invoke (H := Toy.unix)) started) in
  let r := onCopyFinished (H := Toy.unix) true "done" w2 in
  m_isCopying (mgr w2) = true /\
  m_tempDirToCleanup (mgr w2) = "/tmp/stage1" /\
  m_isCopying (mgr (state_after r)) = false /\
  m_status (mgr (state_after r)) = "done" /\
  m_tempDirToCleanup (mgr (state_after r)) = "" /\
  signals (trace_of r) = [isCopyingChanged; statusChanged; copySucceeded] /\
  map fst (fs_calls (trace_of r)) =
    [RemoveFile "/tmp/stage1/a.img"; RemoveFile "/tmp/stage1/b.img";
     RemoveRecursively "/tmp/stage1/sub"; RemoveRecursively "/tmp/stage1"].
Proof.
  assert (Hidle : m_isCopying (mgr Toy.idle_world) = false) by reflexivity.
  assert (Hok : result_of (startCopy (H := Toy.unix)
                  "/src/a.img" "/dst/new/b.img" "/tmp/stage1" Toy.idle_world) = true)
    by (vm_compute; reflexivity).
  assert (Hbetween : existsb is_CopyFinished Toy.between = false) by reflexivity.
  pose proof (copy_result_cleans_then_notifies (H := Toy.unix)
                "/src/a.img" "/dst/new/b.img" "/tmp/stage1" Toy.between true "done"
                Toy.idle_world Hidle Hok Hbetween) as P.
  cbv zeta in P. destruct P as (P1 & P2 & P3 & P4 & P5 & P6 & _).
  cbv zeta. repeat (split; [assumption|]).
  vm_compute. reflexivity.
Defined.

(** C2 at work: a second copy asked for while one is in flight. *)
Lemma startCopy_refused_example :
  let r := startCopy (H := Toy.unix) "/src/a.img" "/dst/b.img" "/tmp/other"
             Toy.copying_world in
  result_of r = false /\
  m_status (mgr (state_after r)) = "Already copying..." /\
  copy_state (mgr (state_after r)) = (true, 512, 1024, "/tmp/stage1") /\
  dispatched (trace_of r) = [].
Proof.
  assert (Hbusy : m_isCopying (mgr Toy.copying_world) = true) by reflexivity.
  pose proof (startCopy_refused_while_copying (H := Toy.unix)
                "/src/a.img" "/dst/b.img" "/tmp/other" Toy.copying_world Hbusy) as P.
  cbv zeta in P.
  destruct P as (P1 & P2 & P3 & P4 & P5 & P6 & _ & _ & P9 & _).
  cbv zeta. unfold copy_state.
  rewrite P3, P4, P5, P6.
  split; [exact P1|]. split; [exact P2|]. split; [reflexivity | exact P9].
Defined.

(** C3 at work: [/dst/ro] cannot be created, [/dst/new] can. *)
Lemma startCopy_idle_example :
  let failed := startCopy (H := Toy.unix) "/src/a.img" "/dst/ro/b.img" "/tmp/stage1"
                  Toy.idle_world in
  let started := startCopy (H := Toy.unix) "/src/a.img" "/dst/new/b.img" "/tmp/stage1"
                   Toy.idle_world in
  (result_of failed = false /\
   m_isCopying (mgr (state_after failed)) = false /\
   dispatched (trace_of failed) = []) /\
  (result_of started = true /\
   m_isCopying (mgr (state_after started)) = true /\
   dispatched (trace_of started) = [doCopy "/src/a.img" "/dst/new/b.img"]).
Proof.
  assert (Hidle : m_isCopying (mgr Toy.idle_world) = false) by reflexivity.
  pose proof (startCopy_when_idle (H := Toy.unix)
                "/src/a.img" "/dst/ro/b.img" "/tmp/stage1" Toy.idle_world Hidle) as F.
  pose proof (startCopy_when_idle (H := Toy.unix)
                "/src/a.img" "/dst/new/b.img" "/tmp/stage1" Toy.idle_world Hidle) as S.
  cbv zeta in F, S.
  change (negb (QDir_exists (QFileInfo_dir "/dst/ro/b.img") (disk Toy.idle_world)) &&
          negb (fst (QDir_mkpath (QFileInfo_dir "/dst/ro/b.img") "." (disk Toy.idle_world))))
    with true in F.
  change (negb (QDir_exists (QFileInfo_dir "/dst/new/b.img") (disk Toy.idle_world)) &&
          negb (fst (QDir_mkpath (QFileInfo_dir "/dst/new/b.img") "." (disk Toy.idle_world))))
    with false in S.
  cbv iota in F, S.
  destruct F as (F1 & _ & _ & _ & F5 & F6 & _).
  destruct S as (S1 & _ & S3 & _ & _ & S6 & _).
  cbv zeta. repeat split; assumption.
Defined.

(** C4 at work: with a staged file held open the recursive removal of the
    directory fails and the plain [rmdir] is tried, once; a missing
    directory is left alone. *)
Lemma cleanupTempDirectory_example :
  let held := cleanupTempDirectory (H := Toy.unix) "/tmp/stage1" Toy.copying_world in
  let missing := cleanupTempDirectory (H := Toy.unix) "/tmp/none" Toy.copying_world in
  (map fst (fs_calls (trace_of held)) =
     [RemoveFile "/tmp/stage1/a.img"; RemoveFile "/tmp/stage1/b.img";
      RemoveRecursively "/tmp/stage1/sub"; RemoveRecursively "/tmp/stage1";
      Rmdir "/tmp" "stage1"] /\
   count is_rmdir (map fst (fs_calls (trace_of held))) = 1%nat) /\
  (fs_calls (trace_of missing) = [] /\
   disk (state_after missing) = disk Toy.copying_world).
Proof.
  pose proof (cleanupTempDirectory_steps (H := Toy.unix) "/tmp/stage1" Toy.copying_world)
    as P.
  pose proof (cleanupTempDirectory_steps (H := Toy.unix) "/tmp/none" Toy.copying_world)
    as Q.
  cbv zeta in P, Q.
  destruct P as (_ & _ & _ & _ & P5). destruct Q as (_ & _ & _ & Q4 & _).
  assert (Hex : QDir_exists (QtPlatform := Toy.unix) "/tmp/stage1" (disk Toy.copying_world)
                = true) by reflexivity.
  assert (Hno : QDir_exists (QtPlatform := Toy.unix) "/tmp/none" (disk Toy.copying_world)
                = false) by reflexivity.
  specialize (P5 Hex). specialize (Q4 Hno). cbv zeta.
  split; [|exact Q4].
  destruct P5 as [P5 P6]. split.
  - rewrite P5. vm_compute. reflexivity.
  - rewrite P6. vm_compute. reflexivity.
Defined.

(** C5 at work: half of the bytes copied. *)
Lemma progressPercent_in_range_example :
  let m := mgr (state_after (onCopyProgress 512 1024 Toy.idle_world)) in
  m_copiedSize m = 512 /\ m_totalSize m = 1024 /\ 0 <= progressPercent m <= 100.
Proof.
  assert (Hin : 1024 <= 0 \/ (0 <= 512 <= 1024 /\ 512 * 100 <= Int.qint64_max))
    by (right; vm_compute; intuition discriminate).
  exact (progressPercent_in_range 512 1024 Toy.idle_world Hin).
Defined.

(** C5 refuted as stated: the progress handler stores a pair with more
    bytes copied than the total, or with a negative count, and the percent
    leaves [0, 100]. *)
Lemma progressPercent_out_of_range :
  let over := mgr (state_after (onCopyProgress 200 100 Toy.idle_world)) in
  let under := mgr (state_after (onCopyProgress (-5) 100 Toy.idle_world)) in
  (progressPercent over = 200 /\ ~ (0 <= progressPercent over <= 100)) /\
  (progressPercent under = -5 /\ ~ (0 <= progressPercent under <= 100)).
Proof.
  cbv zeta. split; (split; [vm_compute; reflexivity|]).
  - change (progressPercent _) with 200. lia.
  - change (progressPercent _) with (-5). lia.
Qed.

(** C6 at work: 512 of 1024 bytes is 50 percent, and no more than any
    later value. *)
Lemma progressPercent_floor_example :
  let m := Toy.copying "/tmp/stage1" in
  progressPercent m = 50 /\
  progressPercent m <= progressPercent (set_copiedSize 1024 m).
Proof.
  cbv zeta.
  destruct (progressPercent_floor_monotone (Toy.copying "/tmp/stage1")) as [_ P].
  assert (Ht : 0 < m_totalSize (Toy.copying "/tmp/stage1")) by reflexivity.
  assert (Hc : 0 <= m_copiedSize (Toy.copying "/tmp/stage1")
               <= m_totalSize (Toy.copying "/tmp/stage1"))
    by (vm_compute; intuition discriminate).
  assert (Hfit : m_copiedSize (Toy.copying "/tmp/stage1") * 100 <= Int.qint64_max)
    by (vm_compute; discriminate).
  destruct (P Ht Hc Hfit) as [E Mono].
  split.
  - rewrite E. reflexivity.
  - apply Mono; vm_compute; intuition discriminate.
Defined.

(** C6 refuted as stated: with [0 <= copied <= total] and [0 < total],
    [copied * 100] leaves the [qint64] range and the percent is -99, not the
    floor of the ratio, 100. *)
Lemma progressPercent_overflow :
  let m := set_totalSize 92233720368547759
             (set_copiedSize 92233720368547759 Toy.idle) in
  (0 <= m_copiedSize m <= m_totalSize m /\ 0 < m_totalSize m) /\
  m_copiedSize m * 100 / m_totalSize m = 100 /\
  progressPercent m = -99.
Proof.
  cbv zeta. split; [|split]; vm_compute; intuition discriminate.
Qed.

(** On the small disk [bytesAvailable] is a size. *)
Lemma toy_bytesAvailable_is_a_size windows :
  bytesAvailable_is_a_size (H := Toy.platform windows).
Proof.
  intros p fs. cbn. unfold Toy.storageInfo.
  destruct (Toy.mem p (Toy.dirs fs) || Toy.mem p (Toy.files fs));
    [|discriminate].
  destruct (find _ _) as [[root free]|]; cbn; [|discriminate].
  intros _ _. apply N2Z.is_nonneg.
Qed.

(** C9 at work: a path on the [/tmp] volume, the empty path, and two
    drive-letter paths, one with a letter outside ASCII, on a disk without
    such drives. *)
Lemma getAvailableSpace_example :
  (result_of (getAvailableSpace (H := Toy.unix) "/tmp/stage1" Toy.idle_world) = 4096 /\
   result_of (getAvailableSpace (H := Toy.unix) "" Toy.idle_world) = 1000000) /\
  (result_of (queryRoot (H := Toy.windows) "C:\Users\x" Toy.idle_world) = "C:/" /\
   result_of (queryRoot (H := Toy.windows) "é:\x" Toy.idle_world) = "é:/" /\
   result_of (getAvailableSpace (H := Toy.windows) "é:\x" Toy.idle_world) = 0) /\
  0 <= result_of (getAvailableSpace (H := Toy.unix) "/tmp/stage1" Toy.idle_world).
Proof.
  pose proof (getAvailableSpace_answer (H := Toy.unix) "/tmp/stage1" Toy.idle_world)
    as P.
  pose proof (getAvailableSpace_answer (H := Toy.unix) "" Toy.idle_world) as Q.
  pose proof (getAvailableSpace_answer (H := Toy.windows) "C:\Users\x" Toy.idle_world)
    as C.
  pose proof (getAvailableSpace_answer (H := Toy.windows) "é:\x" Toy.idle_world) as E.
  cbv zeta in P, Q, C, E.
  destruct P as (_ & P2 & _ & P4 & _).
  destruct Q as (_ & Q2 & _).
  destruct C as (C1 & _ & _ & _ & _ & _ & C7).
  destruct E as (E1 & E2 & _ & _ & _ & _ & E7).
  assert (Hwin : Q_OS_WIN (QtPlatform := Toy.windows) = true) by reflexivity.
  split; [split|split; [split; [|split]|]].
  - rewrite P2. vm_compute. reflexivity.
  - rewrite Q2. vm_compute. reflexivity.
  - rewrite C1. apply (C7 Hwin "C" "/Users/x"); reflexivity.
  - rewrite E1. apply (E7 Hwin "é" "/x"); reflexivity.
  - rewrite E2. vm_compute. reflexivity.
  - apply P4. apply (toy_bytesAvailable_is_a_size false).
Defined.

(** C9 refuted as stated: the volume of a path that does not exist
    cannot be resolved ([QStorageInfo] is not valid and has no root path),
    and the answer is the free space of the system root, not 0. *)
Lemma getAvailableSpace_unresolvable :
  let info := QStorageInfo_of (QtPlatform := Toy.unix) "/nonexistent"
                (disk Toy.idle_world) in
  let answer := result_of (getAvailableSpace (H := Toy.unix) "/nonexistent"
                             Toy.idle_world) in
  (si_isValid info = false /\ si_rootPath info = "") /\
  result_of (queryRoot (H := Toy.unix) "/nonexistent" Toy.idle_world) = "/" /\
  answer = 1000000 /\
  answer <> 0.
Proof.
  cbv zeta. split; [split; reflexivity|]. split; [reflexivity|].
  split; [vm_compute; reflexivity | vm_compute; discriminate].
Qed.

(** C4 refuted as stated: [.lock] is a regular file directly inside the
    directory and [.cache] a direct subdirectory, but both are hidden and
    so not listed; neither is tried in its own step.  Only the recursive
    removal of the directory reaches them; here it fails on the file held
    open, and so does the fallback, and [.lock] stays. *)
Lemma cleanupTempDirectory_skips_hidden :
  let r := cleanupTempDirectory (H := Toy.unix) "/tmp/stage2" Toy.hidden_world in
  (In "/tmp/stage2/.lock" (Toy.files (disk Toy.hidden_world)) /\
   Toy.dirName "/tmp/stage2/.lock" = "/tmp/stage2" /\
   In "/tmp/stage2/.cache" (Toy.dirs (disk Toy.hidden_world)) /\
   Toy.dirName "/tmp/stage2/.cache" = "/tmp/stage2") /\
  fs_calls (trace_of r) =
    [(RemoveFile "/tmp/stage2/visible.img", true);
     (RemoveRecursively "/tmp/stage2", false);
     (Rmdir "/tmp" "stage2", false)] /\
  ~ In (RemoveFile "/tmp/stage2/.lock") (map fst (fs_calls (trace_of r))) /\
  ~ In (RemoveRecursively "/tmp/stage2/.cache") (map fst (fs_calls (trace_of r))) /\
  In "/tmp/stage2/.lock" (Toy.files (disk (state_after r))).
Proof.
  cbv zeta.
  assert (Hcalls : fs_calls (trace_of (cleanupTempDirectory (H := Toy.unix)
                      "/tmp/stage2" Toy.hidden_world)) =
                   [(RemoveFile "/tmp/stage2/visible.img", true);
                    (RemoveRecursively "/tmp/stage2", false);
                    (Rmdir "/tmp" "stage2", false)])
    by (vm_compute; reflexivity).
  split.
  { repeat split; try reflexivity; vm_compute; auto 10. }
  split; [exact Hcalls|].
  rewrite Hcalls. cbn [map fst].
  split; [|split].
  - intros [E | [E | [E | []]]]; discriminate E.
  - intros [E | [E | [E | []]]]; discriminate E.
  - vm_compute. auto 10.
Qed.

(** C10 at work: two deletes in flight, both results report the second
    path. *)
Lemma deleteSucceeded_example :
  let s1 := startDelete "/tmp/one.img" Toy.idle_world in
  let s2 := startDelete "/tmp/two.img" (state_after s1) in
  let f1 := onDeleteFinished true "deleted" (state_after s2) in
  let f2 := onDeleteFinished true "deleted" (state_after f1) in
  signals (trace_of f1) = [statusChanged; deleteSucceeded "/tmp/two.img"] /\
  ~ In (deleteSucceeded "/tmp/one.img") (signals (trace_of f1 ++ trace_of f2)).
Proof.
  pose proof (deleteSucceeded_reports_last_dispatched
                "/tmp/one.img" "/tmp/two.img" "deleted" "deleted" Toy.idle_world) as P.
  cbv zeta in P. destruct P as (_ & _ & _ & P4 & _ & P6).
  cbv zeta. split; [exact P4|].
  apply P6. discriminate.
Defined.

(** X1 at work: a staged file and a path that is not there. *)
Lemma getFileSize_example :
  result_of (getFileSize (H := Toy.unix) "/tmp/nothing.img" Toy.idle_world) = -1 /\
  result_of (getFileSize (H := Toy.unix) "/src/a.img" Toy.idle_world) <> -1.
Proof.
  assert (Hsize : forall p,
             QFileInfo_exists (QtPlatform := Toy.unix) p (disk Toy.idle_world) = true ->
             0 <= QFileInfo_size (QtPlatform := Toy.unix) p (disk Toy.idle_world))
    by (intros p _; cbn; lia).
  destruct (getFileSize_sentinel (H := Toy.unix) "/tmp/nothing.img" Toy.idle_world
              (Hsize _)) as [Hmissing _].
  destruct (getFileSize_sentinel (H := Toy.unix) "/src/a.img" Toy.idle_world
              (Hsize _)) as [Hthere _].
  split.
  - apply Hmissing. reflexivity.
  - intros Hr. apply Hthere in Hr. discriminate Hr.
Defined.

(** X2 at work: all 1024 bytes copied. *)
Lemma progressPercent_full_example :
  progressPercent (set_copiedSize 1024 (Toy.copying "/tmp/stage1")) = 100.
Proof.
  assert (Hc : 0 <= m_copiedSize (set_copiedSize 1024 (Toy.copying "/tmp/stage1"))
               <= m_totalSize (set_copiedSize 1024 (Toy.copying "/tmp/stage1")))
    by (vm_compute; intuition discriminate).
  assert (Ht : 0 < m_totalSize (set_copiedSize 1024 (Toy.copying "/tmp/stage1")))
    by reflexivity.
  assert (Hfit : m_copiedSize (set_copiedSize 1024 (Toy.copying "/tmp/stage1")) * 100
                 <= Int.qint64_max)
    by (vm_compute; discriminate).
  destruct (progressPercent_full_and_empty _ Hc Ht Hfit) as [[_ Hfull] _].
  apply Hfull. reflexivity.
Defined.

(** X9 at work: four requests while a copy is in flight; the delete and
    the validation start, the two image-info requests do not. *)
Lemma requests_compose_example :
  let calls := [StartDelete "/tmp/stale.img"; StartImageInfoExtraction "/img/a.zip";
                StartImageValidation "/img/a.zip";
                DeleteFinished true "deleted";
                StartImageInfoAndValidation "/img/a.zip"] in
  dispatched (trace_of (for_each calls (invoke (H := Toy.unix)) Toy.copying_world)) =
    [doDelete "/tmp/stale.img"; doValidateImage "/img/a.zip"].
Proof.
  cbv zeta.
  assert (Hcalls : existsb reaches_disk
                     [StartDelete "/tmp/stale.img"; StartImageInfoExtraction "/img/a.zip";
                      StartImageValidation "/img/a.zip";
                      DeleteFinished true "deleted";
                      StartImageInfoAndValidation "/img/a.zip"] = false)
    by reflexivity.
  destruct (requests_compose (H := Toy.unix) _ Toy.copying_world Hcalls) as [P _].
  rewrite P. reflexivity.
Defined.

(** X14 at work: a whole copy, from the request to the result. *)
Lemma handle_only_while_copying_example :
  let calls := StartCopy "/src/a.img" "/dst/new/b.img" "/tmp/stage1"
               :: Toy.between ++ [CopyFinished true "done"] in
  m_tempDirToCleanup
    (mgr (state_after (for_each calls (invoke (H := Toy.unix)) Toy.idle_world))) = "".
Proof.
  cbv zeta.
  apply (handle_only_while_copying (H := Toy.unix)).
  - intros _. reflexivity.
  - vm_compute. reflexivity.
Defined.

(** X16 at work: a drive named by a letter outside ASCII. *)
Lemma drive_root_example :
  has_drive_letter "é:/x" = true /\
  drive_root "é:/x" = "é:/" /\
  drive_root (drive_root "é:/x") = drive_root "é:/x".
Proof.
  destruct (drive_letter_paths "é:/x") as [[_ Hhas] Hroot].
  assert (Hc : QString.one_unit "é" = true) by reflexivity.
  destruct (Hroot "é" "/x" Hc eq_refl) as (R1 & _ & R3).
  split; [|split; [exact R1 | exact R3]].
  apply Hhas. exists "é", "/x". split; [exact Hc | reflexivity].
Defined.

(** X17 at work: two paths on drive C, and two on a drive named by a
    letter outside ASCII. *)
Lemma getAvailableSpace_same_drive_example :
  getAvailableSpace (H := Toy.windows) "C:\Users\x" Toy.idle_world =
  getAvailableSpace (H := Toy.windows) "C:/Windows" Toy.idle_world /\
  getAvailableSpace (H := Toy.windows) "é:\a" Toy.idle_world =
  getAvailableSpace (H := Toy.windows) "é:/b/c" Toy.idle_world.
Proof.
  split; apply (getAvailableSpace_same_drive (H := Toy.windows)); reflexivity.
Defined.

(** X18 at work. *)
Lemma getAvailableSpace_empty_path_example :
  result_of (getAvailableSpace (H := Toy.unix) "" Toy.idle_world) =
  result_of (getAvailableSpace (H := Toy.unix) "/" Toy.idle_world).
Proof.
  assert (Hunix : Q_OS_WIN (QtPlatform := Toy.unix) = false) by reflexivity.
  rewrite (getAvailableSpace_empty_path (H := Toy.unix) Toy.idle_world Hunix).
  reflexivity.
Defined.

(** X20 at work: the copy's result leaves the 50 percent standing. *)
Lemma progressPercent_after_result_example :
  progressPercent
    (mgr (state_after (invoke (H := Toy.unix) (CopyFinished true "done")
                         Toy.copying_world))) = 50.
Proof.
  assert (Hp : is_CopyProgress (CopyFinished true "done") = false) by reflexivity.
  assert (Hc : is_StartCopy (CopyFinished true "done") = false) by reflexivity.
  rewrite (progressPercent_moves_only_with_copy (H := Toy.unix)
             (CopyFinished true "done") Toy.copying_world Hp Hc).
  reflexivity.
Defined.

End Examples.
